(** * Inventory service: item and photo lifecycle

    A shallow embedding of the two variants of the inventory HTTP service:
    the in-memory variant (module [Mem], a global [inventory] array and a
    [nextId] counter) and the SQL-backed variant (module [Sql], an [items]
    table reached through [dbClient.query]).  Both share the JavaScript value
    model, the cache directory on disk and the request/response types.

    Requests are handled one after the other, on a connected database.  A
    query throws when the server refuses one of its parameters: an id that is
    NaN or outside the range of the id column, a text holding a NUL byte, or
    an exhausted id sequence.  The SQL-backed handlers answer such an
    exception, and one thrown by [fs.unlinkSync], with 500. *)

From stdpp Require Import base decidable option list sorting gmap strings pretty.
From Stdlib Require Import ZArith Lia.

Local Open Scope string_scope.
Local Open Scope list_scope.
Local Open Scope Z_scope.

(** ** JavaScript values carried by request bodies

    [req.body] fields are parsed by [express.json], [express.urlencoded] or
    multer.  The scalar JSON values are modelled; numbers are the integers
    that JavaScript prints in decimal digits (magnitude below 10^21). *)

Inductive jsval : Type :=
  | JUndefined
  | JNull
  | JBool (b : bool)
  | JNum (n : Z)
  | JStr (s : string).

Global Instance jsval_eq_dec : EqDecision jsval.
Proof. solve_decision. Defined.

(** [ToBoolean]: what [if (v)], [!v], [v || w] and [v && w] test. *)
Definition truthy (v : jsval) : bool :=
  match v with
  | JUndefined | JNull => false
  | JBool b => b
  | JNum n => negb (Z.eqb n 0)
  | JStr s => negb (String.eqb s "")
  end.

(** [ToString], as used by string concatenation and by the SQL driver. *)
Definition js_to_string (v : jsval) : string :=
  match v with
  | JUndefined => "undefined"
  | JNull => "null"
  | JBool true => "true"
  | JBool false => "false"
  | JNum n => pretty n
  | JStr s => s
  end.

(** [a || b] *)
Definition js_or (a b : jsval) : jsval := if truthy a then a else b.

(** [v += s] with [s] a string: concatenation after [ToString]. *)
Definition js_append (v : jsval) (s : string) : jsval := JStr (js_to_string v +:+ s).

(** [v === 'on'] and the like: strict equality with a string literal. *)
Definition js_strict_eq_str (v : jsval) (s : string) : bool :=
  match v with
  | JStr t => String.eqb t s
  | _ => false
  end.

(** ** Route parameters

    [parseInt(req.params.id, 10)] (or [parseInt(id, 10)] on the search form):
    an integer, or NaN when the text does not start with one. *)

Inductive parsed : Type :=
  | PInt (n : Z)
  | NaN.

Coercion PInt : Z >-> parsed.

Global Instance parsed_eq_dec : EqDecision parsed.
Proof. solve_decision. Defined.

(** ** Items

    The objects held in [inventory] and the row objects returned by the SQL
    driver have the same four fields.  [photo] is [null] or a path. *)

Record item : Type := Item {
  id : Z;
  name : jsval;
  description : jsval;
  photo : option string
}.

Global Instance item_eq_dec : EqDecision item.
Proof. solve_decision. Defined.

Definition set_name (i : item) (v : jsval) : item :=
  {| id := id i; name := v; description := description i; photo := photo i |}.
Definition set_description (i : item) (v : jsval) : item :=
  {| id := id i; name := name i; description := v; photo := photo i |}.
Definition set_photo (i : item) (p : option string) : item :=
  {| id := id i; name := name i; description := description i; photo := p |}.

(** Truthiness of a [photo] field: [null] and the empty string are falsy. *)
Definition photo_truthy (p : option string) : bool :=
  match p with
  | Some s => negb (String.eqb s "")
  | None => false
  end.

(** The template literal [`/inventory/${item.id}/photo`]. *)
Definition photo_link (i : Z) : string := "/inventory/" +:+ pretty i +:+ "/photo".

(** [item.photo ? `/inventory/${item.id}/photo` : null] *)
Definition photo_url_of (i : item) : option string :=
  if photo_truthy (photo i) then Some (photo_link (id i)) else None.

(** The suffix added by the search route. *)
Definition photo_note (i : Z) : string := " [Photo Link: " +:+ photo_link i +:+ "]".

(** ** The cache directory

    The disk is the set of existing paths.  [unlinks] records, in order, the
    paths on which [fs.unlinkSync] was called and succeeded. *)

Record disk : Type := Disk {
  files : gset string;
  unlinks : list string
}.

(** [fs.existsSync]; the empty path never names a file. *)
Definition existsSync (d : disk) (p : string) : bool :=
  bool_decide (p ≠ "" ∧ p ∈ files d).

(** [fs.unlinkSync] throws (here [None]) when the path does not exist. *)
Definition unlinkSync (p : string) (d : disk) : option disk :=
  if existsSync d p
  then Some {| files := files d ∖ {[p]}; unlinks := unlinks d ++ [p] |}
  else None.

(** The guarded removal both variants perform on delete and on photo
    replacement: [if (x.photo && fs.existsSync(x.photo)) fs.unlinkSync(x.photo)]. *)
Definition cleanup_photo (p : option string) (d : disk) : option disk :=
  match p with
  | Some s => if photo_truthy p && existsSync d s then unlinkSync s d else Some d
  | None => Some d
  end.

(** ** Uploads

    [req.file] as multer's [upload.single('photo')] leaves it: the file has
    been written under [CACHE_DIR] and [path] is [CACHE_DIR] joined with the
    generated file name.  [CACHE_DIR] is already resolved, so [path.resolve]
    returns that path unchanged. *)

Record upload : Type := Upload { path : string }.

Definition path_resolve (p : string) : string := p.

(** The middleware [upload.single('photo')], run before the handler. *)
Definition upload_single (f : option upload) (d : disk) : disk :=
  match f with
  | Some u => {| files := {[path u]} ∪ files d; unlinks := unlinks d |}
  | None => d
  end.

(** [photo ? path.resolve(photo.path) : null] *)
Definition photo_path_of (f : option upload) : option string :=
  match f with
  | Some u => Some (path_resolve (path u))
  | None => None
  end.

(** ** Requests and responses *)

Inductive request : Type :=
  | PostRegister (inventory_name description : jsval) (file : option upload)
  | GetInventory
  | GetInventoryId (itemId : parsed)
  | PutInventoryId (itemId : parsed) (name description : jsval)
  | GetInventoryIdPhoto (itemId : parsed)
  | PutInventoryIdPhoto (itemId : parsed) (file : option upload)
  | DeleteInventoryId (itemId : parsed)
  | PostSearch (itemId : parsed) (includePhoto : jsval).

Inductive body : Type :=
  | BText (s : string)
  | BItem (i : item)
  | BItemLink (i : item) (photo_url : option string)
  | BList (l : list (item * option string))
  | BFile (p : string)
  | BUndefined.

Record response : Type := Response { status : Z; payload : body }.

Definition bad_request_name : response :=
  Response 400 (BText "Bad Request: inventory_name is required.").
Definition bad_request_photo : response :=
  Response 400 (BText "Bad Request: No photo file provided.").
Definition not_found : response := Response 404 (BText "Not Found").
Definition photo_updated : response := Response 200 (BText "Photo updated successfully.").
Definition item_deleted : response := Response 200 (BText "Item deleted successfully.").
Definition database_error : response := Response 500 (BText "Database Error").
(** Express answers an exception escaping a handler with status 500. *)
Definition internal_error : response := Response 500 (BText "Internal Server Error").

(** [{...item, photo_url: ...}] *)
Definition with_link (i : item) : item * option string := (i, photo_url_of i).

(** The search route's copy of the item, with the note added to the copy's
    description when [includePhoto === 'on' && result.photo]. *)
Definition search_output (i : item) (includePhoto : jsval) : item :=
  if js_strict_eq_str includePhoto "on" && photo_truthy (photo i)
  then set_description i (js_append (description i) (photo_note (id i)))
  else i.

(** * The in-memory variant *)

Module Mem.

Record state : Type := State {
  inventory : list item;
  nextId : Z;
  fs : disk
}.

Definition init (d : disk) : state := {| inventory := []; nextId := 1; fs := d |}.

Definition find_id (itemId : Z) (inv : list item) : option (nat * item) :=
  list_find (λ i, id i = itemId) inv.

(** [inventory.find(i => i.id === itemId)], with the index of the object found
    so that assignments to its fields reach the array.  No id is [===] NaN. *)
Definition find (itemId : parsed) (inv : list item) : option (nat * item) :=
  match itemId with
  | PInt x => find_id x inv
  | NaN => None
  end.

Definition post_register (inventory_name description : jsval) (file : option upload)
    (s : state) : state * response :=
  if negb (truthy inventory_name) then (s, bad_request_name)
  else
    let newItem := {| id := nextId s;
                      name := inventory_name;
                      description := js_or description (JStr "");
                      photo := photo_path_of file |} in
    ({| inventory := inventory s ++ [newItem]; nextId := nextId s + 1; fs := fs s |},
     Response 201 (BItem newItem)).

Definition get_inventory (s : state) : state * response :=
  (s, Response 200 (BList (with_link <$> inventory s))).

Definition get_inventory_id (itemId : parsed) (s : state) : state * response :=
  match find itemId (inventory s) with
  | None => (s, not_found)
  | Some (_, i) => (s, Response 200 (BItemLink i (photo_url_of i)))
  end.

(** [if (req.body.name) item.name = req.body.name;] and the same for the
    description. *)
Definition assign_fields (name description : jsval) (i : item) : item :=
  let i1 := if truthy name then set_name i name else i in
  if truthy description then set_description i1 description else i1.

Definition put_inventory_id (itemId : parsed) (name description : jsval)
    (s : state) : state * response :=
  match find itemId (inventory s) with
  | None => (s, not_found)
  | Some (k, i) =>
      let i' := assign_fields name description i in
      ({| inventory := <[k := i']> (inventory s); nextId := nextId s; fs := fs s |},
       Response 200 (BItem i'))
  end.

Definition get_inventory_id_photo (itemId : parsed) (s : state) : state * response :=
  match find itemId (inventory s) with
  | None => (s, not_found)
  | Some (_, i) =>
      match photo i with
      | Some p =>
          if photo_truthy (photo i) && existsSync (fs s) p
          then (s, Response 200 (BFile p))
          else (s, not_found)
      | None => (s, not_found)
      end
  end.

Definition put_inventory_id_photo (itemId : parsed) (file : option upload)
    (s : state) : state * response :=
  match find itemId (inventory s) with
  | None => (s, not_found)
  | Some (k, i) =>
      match file with
      | Some u =>
          match cleanup_photo (photo i) (fs s) with
          | Some d =>
              ({| inventory := <[k := set_photo i (Some (path_resolve (path u)))]> (inventory s);
                  nextId := nextId s; fs := d |},
               photo_updated)
          | None => (s, internal_error)
          end
      | None => (s, bad_request_photo)
      end
  end.

(** [findIndex] then [splice(itemIndex, 1)]; the photo of the removed item
    is cleaned up after the array has been changed. *)
Definition delete_inventory_id (itemId : parsed) (s : state) : state * response :=
  match find itemId (inventory s) with
  | None => (s, not_found)
  | Some (itemIndex, deletedItem) =>
      let inv := delete itemIndex (inventory s) in
      match cleanup_photo (photo deletedItem) (fs s) with
      | Some d => ({| inventory := inv; nextId := nextId s; fs := d |}, item_deleted)
      | None => ({| inventory := inv; nextId := nextId s; fs := fs s |}, internal_error)
      end
  end.

Definition post_search (itemId : parsed) (includePhoto : jsval) (s : state) : state * response :=
  match find itemId (inventory s) with
  | None => (s, not_found)
  | Some (_, i) => (s, Response 200 (BItem (search_output i includePhoto)))
  end.

Definition with_fs (s : state) (d : disk) : state :=
  {| inventory := inventory s; nextId := nextId s; fs := d |}.

(** The router: middleware first, then the handler of the route. *)
Definition handle (r : request) (s : state) : state * response :=
  match r with
  | PostRegister n d f => post_register n d f (with_fs s (upload_single f (fs s)))
  | GetInventory => get_inventory s
  | GetInventoryId i => get_inventory_id i s
  | PutInventoryId i n d => put_inventory_id i n d s
  | GetInventoryIdPhoto i => get_inventory_id_photo i s
  | PutInventoryIdPhoto i f => put_inventory_id_photo i f (with_fs s (upload_single f (fs s)))
  | DeleteInventoryId i => delete_inventory_id i s
  | PostSearch i p => post_search i p s
  end.

End Mem.

(** * The SQL-backed variant *)

Module Sql.

(** Modelled from the spec: the [items] table, whose definition is not among
    the sources.  Rows carry [id], [name], [description] and [photo]; [id] is
    an [integer] column assigned on insertion from a sequence that starts at
    1 ("sequence or auto-increment"); the other columns are text, [photo]
    being nullable. *)
Record state : Type := State {
  items : list item;
  items_id_seq : Z;
  fs : disk
}.

Definition init (d : disk) : state := {| items := []; items_id_seq := 1; fs := d |}.

(** Modelled from the spec: the values an [integer] column and its sequence
    can hold. *)
Definition int4 (x : Z) : bool := (-2147483648 <=? x) && (x <=? 2147483647).

(** The id parameter of a [WHERE id = $n] clause as the server takes it.  The
    driver sends the number as text; the server refuses ["NaN"] and integers
    outside the column's range, and the query throws (here [None]). *)
Definition id_param (itemId : parsed) : option Z :=
  match itemId with
  | PInt x => if int4 x then Some x else None
  | NaN => None
  end.

(** The driver sends [null] and [undefined] as NULL and any other scalar as
    its string form. *)
Definition prepareValue (v : jsval) : option string :=
  match v with
  | JUndefined | JNull => None
  | _ => Some (js_to_string v)
  end.

Fixpoint has_nul (s : string) : bool :=
  match s with
  | EmptyString => false
  | String c s' => Ascii.eqb c Ascii.zero || has_nul s'
  end.

(** The server refuses a text parameter that holds a NUL byte. *)
Definition text_ok (p : option string) : bool :=
  match p with
  | Some s => negb (has_nul s)
  | None => true
  end.

(** A text column as the driver hands it back in a row object. *)
Definition column (c : option string) : jsval :=
  match c with
  | Some s => JStr s
  | None => JNull
  end.

(** [COALESCE($n, col)] *)
Definition coalesce (p : option string) (col : jsval) : jsval :=
  match p with
  | Some s => JStr s
  | None => col
  end.

(** [SELECT ... FROM items WHERE id = $1], once the parameter is taken. *)
Definition select_where_id (itemId : Z) (rows : list item) : list item :=
  filter (λ r, id r = itemId) rows.

Definition id_le (a b : item) : Prop := id a ≤ id b.

Global Instance id_le_dec a b : Decision (id_le a b).
Proof. unfold id_le. apply _. Defined.

(** [SELECT * FROM items ORDER BY id ASC] *)
Definition select_order_by_id (rows : list item) : list item :=
  merge_sort id_le rows.

(** [INSERT INTO items (name, description, photo) VALUES ($1, $2, $3) RETURNING *].
    The statement throws, storing nothing and leaving the sequence where it
    is, when a text is refused or the sequence is exhausted.  The photo
    parameter is a path of a file multer has written, which holds no NUL. *)
Definition insert_ok (n d : jsval) (s : state) : bool :=
  text_ok (prepareValue n) && text_ok (prepareValue d) && int4 (items_id_seq s).

Definition insert_returning (n d : jsval) (p : option string) (s : state)
    : option (state * item) :=
  if insert_ok n d s then
    let row := {| id := items_id_seq s;
                  name := column (prepareValue n);
                  description := column (prepareValue d);
                  photo := p |} in
    Some ({| items := items s ++ [row]; items_id_seq := items_id_seq s + 1; fs := fs s |},
          row)
  else None.

(** [UPDATE items SET name = COALESCE($1, name), description = COALESCE($2,
    description) WHERE id = $3 RETURNING *]; the handler answers with
    [updateRes.rows[0]], the first updated row.  The statement throws when a
    text is refused. *)
Definition update_ok (n d : jsval) : bool :=
  text_ok (prepareValue n) && text_ok (prepareValue d).

Definition update_fields_row (n d : jsval) (r : item) : item :=
  set_description (set_name r (coalesce (prepareValue n) (name r)))
                  (coalesce (prepareValue d) (description r)).

Definition update_fields (n d : jsval) (itemId : Z) (rows : list item) : list item :=
  (λ r, if decide (id r = itemId) then update_fields_row n d r else r) <$> rows.

(** [UPDATE items SET photo = $1 WHERE id = $2] *)
Definition update_photo (p : option string) (itemId : Z) (rows : list item) : list item :=
  (λ r, if decide (id r = itemId) then set_photo r p else r) <$> rows.

(** [DELETE FROM items WHERE id = $1] *)
Definition delete_where_id (itemId : Z) (rows : list item) : list item :=
  filter (λ r, id r ≠ itemId) rows.

Definition with_items (s : state) (rows : list item) : state :=
  {| items := rows; items_id_seq := items_id_seq s; fs := fs s |}.

Definition with_fs (s : state) (d : disk) : state :=
  {| items := items s; items_id_seq := items_id_seq s; fs := d |}.

(** In every handler a throwing query or [fs.unlinkSync] reaches the [catch]
    branch, which answers 500. *)
Definition post_register (inventory_name description : jsval) (file : option upload)
    (s : state) : state * response :=
  if negb (truthy inventory_name) then (s, bad_request_name)
  else
    let photoPath := photo_path_of file in
    match insert_returning inventory_name (js_or description (JStr "")) photoPath s with
    | Some (s', newItem) => (s', Response 201 (BItem newItem))
    | None => (s, database_error)
    end.

Definition get_inventory (s : state) : state * response :=
  (s, Response 200 (BList (with_link <$> select_order_by_id (items s)))).

Definition get_inventory_id (itemId : parsed) (s : state) : state * response :=
  match id_param itemId with
  | None => (s, database_error)
  | Some x =>
      match select_where_id x (items s) with
      | [] => (s, not_found)
      | i :: _ => (s, Response 200 (BItemLink i (photo_url_of i)))
      end
  end.

Definition put_inventory_id (itemId : parsed) (name description : jsval)
    (s : state) : state * response :=
  match id_param itemId with
  | None => (s, database_error)
  | Some x =>
      match select_where_id x (items s) with
      | [] => (s, not_found)
      | _ :: _ =>
          if update_ok name description then
            let rows := update_fields name description x (items s) in
            (with_items s rows,
             Response 200 match select_where_id x rows with
                          | r :: _ => BItem r
                          | [] => BUndefined
                          end)
          else (s, database_error)
      end
  end.

Definition get_inventory_id_photo (itemId : parsed) (s : state) : state * response :=
  match id_param itemId with
  | None => (s, database_error)
  | Some x =>
      match select_where_id x (items s) with
      | [] => (s, not_found)
      | i :: _ =>
          match photo i with
          | Some p =>
              if photo_truthy (photo i) && existsSync (fs s) p
              then (s, Response 200 (BFile p))
              else (s, not_found)
          | None => (s, not_found)
          end
      end
  end.

(** The missing file is rejected before the table is consulted. *)
Definition put_inventory_id_photo (itemId : parsed) (file : option upload)
    (s : state) : state * response :=
  match file with
  | None => (s, bad_request_photo)
  | Some u =>
      match id_param itemId with
      | None => (s, database_error)
      | Some x =>
          match select_where_id x (items s) with
          | [] => (s, not_found)
          | r :: _ =>
              match cleanup_photo (photo r) (fs s) with
              | Some d =>
                  let newPhotoPath := path_resolve (path u) in
                  ({| items := update_photo (Some newPhotoPath) x (items s);
                      items_id_seq := items_id_seq s; fs := d |},
                   photo_updated)
              | None => (s, database_error)
              end
          end
      end
  end.

Definition delete_inventory_id (itemId : parsed) (s : state) : state * response :=
  match id_param itemId with
  | None => (s, database_error)
  | Some x =>
      match select_where_id x (items s) with
      | [] => (s, not_found)
      | itemToDelete :: _ =>
          let rows := delete_where_id x (items s) in
          match cleanup_photo (photo itemToDelete) (fs s) with
          | Some d =>
              ({| items := rows; items_id_seq := items_id_seq s; fs := d |}, item_deleted)
          | None => (with_items s rows, database_error)
          end
      end
  end.

Definition post_search (itemId : parsed) (includePhoto : jsval) (s : state)
    : state * response :=
  match id_param itemId with
  | None => (s, database_error)
  | Some x =>
      match select_where_id x (items s) with
      | [] => (s, not_found)
      | i :: _ => (s, Response 200 (BItem (search_output i includePhoto)))
      end
  end.

Definition handle (r : request) (s : state) : state * response :=
  match r with
  | PostRegister n d f => post_register n d f (with_fs s (upload_single f (fs s)))
  | GetInventory => get_inventory s
  | GetInventoryId i => get_inventory_id i s
  | PutInventoryId i n d => put_inventory_id i n d s
  | GetInventoryIdPhoto i => get_inventory_id_photo i s
  | PutInventoryIdPhoto i f => put_inventory_id_photo i f (with_fs s (upload_single f (fs s)))
  | DeleteInventoryId i => delete_inventory_id i s
  | PostSearch i p => post_search i p s
  end.

(** The requests on which a query of the handler throws. *)
Definition refuses (r : request) (s : state) : bool :=
  match r with
  | PostRegister nm ds _ => truthy nm && negb (insert_ok nm (js_or ds (JStr "")) s)
  | GetInventory => false
  | GetInventoryId x | GetInventoryIdPhoto x | DeleteInventoryId x | PostSearch x _ =>
      match id_param x with Some _ => false | None => true end
  | PutInventoryId x nm ds =>
      match id_param x with
      | None => true
      | Some y =>
          match select_where_id y (items s) with
          | [] => false
          | _ :: _ => negb (update_ok nm ds)
          end
      end
  | PutInventoryIdPhoto x f =>
      match f, id_param x with
      | Some _, None => true
      | _, _ => false
      end
  end.

End Sql.

(** * The two variants behind one interface *)

Inductive variant : Type := InMemory | SqlBacked.

Definition state_of (v : variant) : Type :=
  match v with
  | InMemory => Mem.state
  | SqlBacked => Sql.state
  end.

Definition init (v : variant) (d : disk) : state_of v :=
  match v with
  | InMemory => Mem.init d
  | SqlBacked => Sql.init d
  end.

Definition handle (v : variant) : request → state_of v → state_of v * response :=
  match v with
  | InMemory => Mem.handle
  | SqlBacked => Sql.handle
  end.

(** The item store: the stored records and the id the next record gets. *)
Definition records (v : variant) : state_of v → list item :=
  match v with
  | InMemory => Mem.inventory
  | SqlBacked => Sql.items
  end.

Definition counter (v : variant) : state_of v → Z :=
  match v with
  | InMemory => Mem.nextId
  | SqlBacked => Sql.items_id_seq
  end.

Definition disk_of (v : variant) : state_of v → disk :=
  match v with
  | InMemory => Mem.fs
  | SqlBacked => Sql.fs
  end.

(** The record a request for [itemId] is answered from: the object returned
    by [inventory.find], or [rows[0]] of the [WHERE id = $1] query (nothing
    when the query throws). *)
Definition lookup_item (v : variant) (s : state_of v) (itemId : Z) : option item :=
  match v return state_of v → option item with
  | InMemory => λ s, snd <$> Mem.find itemId (Mem.inventory s)
  | SqlBacked => λ s,
      match Sql.id_param itemId with
      | Some x => head (Sql.select_where_id x (Sql.items s))
      | None => None
      end
  end s.

(** The same for a route parameter, which may be NaN. *)
Definition lookup_parsed (v : variant) (s : state_of v) (itemId : parsed) : option item :=
  match itemId with
  | PInt x => lookup_item v s x
  | NaN => None
  end.

(** Whether the variant's query for [itemId] runs: always in memory, and in
    the SQL-backed variant when the server takes the id parameter. *)
Definition id_ok (v : variant) (itemId : parsed) : bool :=
  match v with
  | InMemory => true
  | SqlBacked => match Sql.id_param itemId with Some _ => true | None => false end
  end.

(** Whether a query of the handler throws on this request: never in memory. *)
Definition db_refuses (v : variant) (r : request) : state_of v → bool :=
  match v with
  | InMemory => λ _, false
  | SqlBacked => Sql.refuses r
  end.

Definition respond (v : variant) (r : request) (s : state_of v) : response :=
  snd (handle v r s).

Definition after (v : variant) (r : request) (s : state_of v) : state_of v :=
  fst (handle v r s).

(** The record a successful registration stores. *)
Definition stored_record (v : variant) (n : Z) (nm ds : jsval) (f : option upload) : item :=
  match v with
  | InMemory => Item n nm (js_or ds (JStr "")) (photo_path_of f)
  | SqlBacked =>
      Item n (Sql.column (Sql.prepareValue nm))
             (Sql.column (Sql.prepareValue (js_or ds (JStr "")))) (photo_path_of f)
  end.

(** The record a successful field update leaves in place of [i]. *)
Definition updated_record (v : variant) (nm ds : jsval) (i : item) : item :=
  match v with
  | InMemory => Mem.assign_fields nm ds i
  | SqlBacked => Sql.update_fields_row nm ds i
  end.

(** ** Uploads chosen by multer

    The upload middleware names each stored file with a generated token: the
    path is not empty and names no file already in the cache directory. *)

Definition request_file (r : request) : option upload :=
  match r with
  | PostRegister _ _ f | PutInventoryIdPhoto _ f => f
  | _ => None
  end.

Definition fresh_upload (r : request) (d : disk) : Prop :=
  match request_file r with
  | Some u => path u ≠ "" ∧ path u ∉ files d
  | None => True
  end.

Global Instance fresh_upload_dec r d : Decision (fresh_upload r d).
Proof. unfold fresh_upload. destruct (request_file r); apply _. Defined.

(** States the service can be in: started on any cache directory with an empty
    store, then serving requests one after the other. *)
Inductive reachable (v : variant) : state_of v → Prop :=
  | reachable_init (d : disk) : reachable v (init v d)
  | reachable_step (s : state_of v) (r : request) :
      reachable v s → fresh_upload r (disk_of v s) → reachable v (after v r s).

(** ** Consistency of the item store with the cache directory *)

Record store_ok (l : list item) (n : Z) (d : disk) : Prop := StoreOk {
  ok_ids_nodup : NoDup (id <$> l);
  ok_ids_below : ∀ i, i ∈ l → id i < n;
  ok_photo_exists : ∀ i p, i ∈ l → photo i = Some p → existsSync d p = true;
  ok_photo_owner : ∀ i j p, i ∈ l → j ∈ l → photo i = Some p → photo j = Some p → id i = id j
}.

(** In a consistent state the records agree with the disk and, in the
    SQL-backed variant, every id is a value of the id column. *)
Record consistent (v : variant) (s : state_of v) : Prop := Consistent {
  ok_store : store_ok (records v s) (counter v s) (disk_of v s);
  ok_ids_range : ∀ i, i ∈ records v s → id_ok v (id i) = true
}.

(** ** Comparing the two variants *)







(** The status codes a sequence of requests is answered with. *)
Fixpoint statuses (v : variant) (rs : list request) (s : state_of v) : list Z :=
  match rs with
  | [] => []
  | r :: rs' => status (respond v r s) :: statuses v rs' (after v r s)
  end.

Definition replaces_without_file (r : request) : bool :=
  match r with
  | PutInventoryIdPhoto _ None => true
  | _ => false
  end.

(** The description carried by a response whose body is a single item. *)
Definition response_description (o : response) : option jsval :=
  match payload o with
  | BItem i | BItemLink i _ => Some (description i)
  | _ => None
  end.

(** ** Requests and sequences of requests *)

(** The route parameter of a request, if it has one, and the integer id it
    is addressed to, if it is one. *)
Definition request_param (r : request) : option parsed :=
  match r with
  | GetInventoryId x | PutInventoryId x _ _ | GetInventoryIdPhoto x
  | PutInventoryIdPhoto x _ | DeleteInventoryId x | PostSearch x _ => Some x
  | PostRegister _ _ _ | GetInventory => None
  end.

Definition request_target (r : request) : option Z :=
  match request_param r with
  | Some (PInt x) => Some x
  | _ => None
  end.

(** The state after a sequence of requests, and the answers given. *)
Fixpoint final (v : variant) (rs : list request) (s : state_of v) : state_of v :=
  match rs with
  | [] => s
  | r :: rs' => final v rs' (after v r s)
  end.

Fixpoint responses (v : variant) (rs : list request) (s : state_of v) : list response :=
  match rs with
  | [] => []
  | r :: rs' => respond v r s :: responses v rs' (after v r s)
  end.

(** Field values an HTML form or a JSON client that sends text produces: a
    string without NUL bytes, or nothing. *)
Definition text_or_missing (x : jsval) : bool :=
  match x with
  | JUndefined | JNull => true
  | JStr a => negb (Sql.has_nul a)
  | JBool _ | JNum _ => false
  end.

Definition nonempty_text_or_missing (x : jsval) : bool :=
  match x with
  | JUndefined | JNull => true
  | JStr a => negb (String.eqb a "") && negb (Sql.has_nul a)
  | JBool _ | JNum _ => false
  end.

(** Requests on which both variants store the same values and no query
    throws: text fields, no empty string in a field update, and a route
    parameter that is an integer the id column can hold. *)
Definition text_request (r : request) : bool :=
  match r with
  | PostRegister nm ds _ => text_or_missing nm && text_or_missing ds
  | PutInventoryId _ nm ds => nonempty_text_or_missing nm && nonempty_text_or_missing ds
  | _ => true
  end &&
  match request_param r with
  | Some x => id_ok SqlBacked x
  | None => true
  end.

(** Ids grow along the store. *)
Definition ids_increasing (l : list item) : Prop := StronglySorted Z.lt (id <$> l).

(** The values a stored field can hold in each variant. *)
Definition is_text (x : jsval) : Prop := ∃ a, x = JStr a.

(** ** Sample data *)

Definition d0 : disk := {| files := ∅; unlinks := [] |}.

Definition laptop : request :=
  PostRegister (JStr "Laptop") (JStr "16GB RAM") (Some (Upload "/cache/a1")).
Definition phone : request := PostRegister (JStr "Phone") JUndefined None.

(** One registered item with a photo, one without. *)
Definition two_items (v : variant) : state_of v :=
  after v phone (after v laptop (init v d0)).

Definition sample_requests : list request :=
  [ laptop;
    PostRegister (JStr "") JUndefined None;
    PutInventoryId 1 JUndefined (JStr "32GB RAM");
    PutInventoryIdPhoto 1 (Some (Upload "/cache/b2"));
    PutInventoryIdPhoto 1 None;
    PutInventoryIdPhoto 7 None;
    PostSearch 1 (JStr "on");
    GetInventoryId 1;
    GetInventoryIdPhoto 1;
    DeleteInventoryId 1;
    GetInventoryIdPhoto 1 ].

(** Case analysis on the shape of a response body. *)
Ltac split_shape Hp :=
  repeat match goal with
         | H : _ ∨ _ |- _ => destruct H
         | H : ∃ _, _ |- _ => destruct H
         | H : _ ∧ _ |- _ => destruct H
         end;
  try match goal with
      | H : respond _ _ _ = not_found |- _ => rewrite H in Hp; simpl in Hp
      end.

(** Case analysis on the record a request with route parameter [x] is
    answered from: either [x] is an integer under which [i] is found, or
    nothing is found under [x]. *)
Ltac by_lookup v s x i E :=
  destruct (lookup_parsed v s x) as [i|] eqn:E;
  [destruct x as [x|]; [cbn [lookup_parsed] in E|discriminate E]|].


(** * Properties *)

(** ** JavaScript values *)

Lemma truthy_JStr s : truthy (JStr s) = true ↔ s ≠ "".
Proof.
  simpl. rewrite negb_true_iff. split.
  - intros H ->. by rewrite String.eqb_refl in H.
  - intros H. apply String.eqb_neq. done.
Qed.

Lemma photo_truthy_Some p : photo_truthy (Some p) = true ↔ p ≠ "".
Proof. apply (truthy_JStr p). Qed.

Lemma existsSync_true d p : existsSync d p = true ↔ p ≠ "" ∧ p ∈ files d.
Proof. unfold existsSync. apply bool_decide_eq_true. Qed.

Lemma existsSync_truthy d p : existsSync d p = true → photo_truthy (Some p) = true.
Proof. rewrite existsSync_true, photo_truthy_Some. tauto. Qed.

(** The guarded removal never throws. *)
Lemma cleanup_photo_spec p d :
  ∃ d', cleanup_photo p d = Some d' ∧
    match p with
    | Some s =>
        if existsSync d s
        then files d' = files d ∖ {[s]} ∧ unlinks d' = unlinks d ++ [s]
        else d' = d
    | None => d' = d
    end.
Proof.
  destruct p as [s|]; simpl; [|eauto].
  destruct (existsSync d s) eqn:E.
  - pose proof (existsSync_truthy _ _ E) as Ht. simpl in Ht. rewrite Ht. simpl.
    unfold unlinkSync. rewrite E. eauto.
  - rewrite andb_false_r. eauto.
Qed.

Lemma cleanup_photo_Some p d : cleanup_photo p d ≠ None.
Proof. destruct (cleanup_photo_spec p d) as (d' & -> & _). done. Qed.

(** ** Finding, replacing and removing a record *)

Section lists.
Implicit Types (l : list item) (i j : item) (k : nat) (x : Z).

Lemma find_split x l k i :
  Mem.find_id x l = Some (k, i) →
  ∃ l1 l2, l = l1 ++ i :: l2 ∧ length l1 = k ∧ id i = x ∧ ∀ j, j ∈ l1 → id j ≠ x.
Proof.
  unfold Mem.find_id. revert k. induction l as [|a l IH]; intros k; simpl; [done|].
  case_decide as Ha.
  - intros [= <- <-]. exists [], l. set_solver.
  - destruct (list_find _ l) as [[k' i']|] eqn:E; simpl; [|done].
    intros [= <- <-]. destruct (IH k' eq_refl) as (l1 & l2 & -> & <- & Hi & Hl1).
    exists (a :: l1), l2. repeat split; [done|].
    intros j [->|Hj]%elem_of_cons; auto.
Qed.

Lemma find_None x l : Mem.find_id x l = None ↔ ∀ j, j ∈ l → id j ≠ x.
Proof. unfold Mem.find_id. rewrite list_find_None, Forall_forall. done. Qed.

Lemma find_middle x l1 i l2 :
  id i = x → (∀ j, j ∈ l1 → id j ≠ x) →
  Mem.find_id x (l1 ++ i :: l2) = Some (length l1, i).
Proof.
  intros Hi Hl1. unfold Mem.find_id. induction l1 as [|a l1 IH]; simpl.
  - by rewrite decide_True.
  - rewrite decide_False by (apply Hl1; left).
    rewrite IH; [done|]. intros j Hj. apply Hl1. by right.
Qed.

Lemma find_app_new x l i :
  (∀ j, j ∈ l → id j ≠ id i) →
  Mem.find_id x (l ++ [i]) =
    match Mem.find_id x l with
    | Some r => Some r
    | None => if decide (id i = x) then Some (length l, i) else None
    end.
Proof.
  intros Hl. destruct (Mem.find_id x l) as [[k a]|] eqn:E.
  - destruct (find_split _ _ _ _ E) as (l1 & l2 & -> & <- & Ha & Hl1).
    rewrite <- app_assoc. simpl. by apply find_middle.
  - case_decide as Hi.
    + apply find_middle; [done|]. by apply find_None.
    + apply find_None. intros j [Hj| ->%list_elem_of_singleton]%elem_of_app; [|done].
      by apply (proj1 (find_None x l) E).
Qed.

Lemma insert_middle_item l1 i i' l2 :
  <[length l1 := i']> (l1 ++ i :: l2) = l1 ++ i' :: l2.
Proof. induction l1 as [|a l1 IH]; simpl; [done|]. by rewrite IH. Qed.

Lemma select_head x l : head (Sql.select_where_id x l) = snd <$> Mem.find_id x l.
Proof.
  unfold Sql.select_where_id, Mem.find_id. induction l as [|a l IH]; [done|].
  rewrite filter_cons. simpl. case_decide; [done|].
  rewrite IH. by destruct (list_find _ l) as [[??]|].
Qed.

Lemma select_nil x l : (∀ j, j ∈ l → id j ≠ x) → Sql.select_where_id x l = [].
Proof.
  intros Hl. unfold Sql.select_where_id. induction l as [|a l IH]; [done|].
  rewrite filter_cons_False by (intros ?; by eapply Hl; [left|]).
  apply IH. intros j Hj. apply Hl. by right.
Qed.

Lemma NoDup_ids_middle l1 i l2 :
  NoDup (id <$> l1 ++ i :: l2) →
  (∀ j, j ∈ l1 → id j ≠ id i) ∧ (∀ j, j ∈ l2 → id j ≠ id i).
Proof.
  rewrite fmap_app, fmap_cons, NoDup_app, NoDup_cons.
  intros (_ & Hl1 & Hi & _). split; intros j Hj E.
  - apply (Hl1 (id j)); [by apply list_elem_of_fmap_2|]. rewrite E. left.
  - apply Hi. rewrite <- E. by apply list_elem_of_fmap_2.
Qed.

Lemma map_ids_off (f : item → item) x l :
  (∀ j, j ∈ l → id j ≠ x) →
  (λ r, if decide (id r = x) then f r else r) <$> l = l.
Proof.
  intros Hl. induction l as [|a l IH]; [done|]. simpl.
  rewrite decide_False by (apply Hl; left). f_equal.
  apply IH. intros j Hj. apply Hl. by right.
Qed.

Lemma delete_ids_off x l :
  (∀ j, j ∈ l → id j ≠ x) → Sql.delete_where_id x l = l.
Proof.
  intros Hl. unfold Sql.delete_where_id. induction l as [|a l IH]; [done|].
  rewrite filter_cons_True by (apply Hl; left). f_equal.
  apply IH. intros j Hj. apply Hl. by right.
Qed.

(** With distinct ids the [WHERE id = $1] statements touch one row: the one
    [find] returns. *)
Lemma map_ids_middle (f : item → item) l1 i l2 :
  NoDup (id <$> l1 ++ i :: l2) →
  (λ r, if decide (id r = id i) then f r else r) <$> (l1 ++ i :: l2) = l1 ++ f i :: l2.
Proof.
  intros [H1 H2]%NoDup_ids_middle.
  rewrite fmap_app, fmap_cons, !map_ids_off by done. by rewrite decide_True.
Qed.

Lemma delete_where_middle l1 i l2 :
  NoDup (id <$> l1 ++ i :: l2) →
  Sql.delete_where_id (id i) (l1 ++ i :: l2) = l1 ++ l2.
Proof.
  intros [H1 H2]%NoDup_ids_middle. unfold Sql.delete_where_id.
  rewrite filter_app, filter_cons_False by (intros ?; done).
  fold (Sql.delete_where_id (id i) l1) (Sql.delete_where_id (id i) l2).
  by rewrite !delete_ids_off.
Qed.

(** Without the assumption, the first matching row after an update is the
    updated first matching row. *)
Lemma select_head_map (f : item → item) x l :
  (∀ r, id (f r) = id r) →
  head (Sql.select_where_id x ((λ r, if decide (id r = x) then f r else r) <$> l)) =
  f <$> head (Sql.select_where_id x l).
Proof.
  intros Hf. unfold Sql.select_where_id. induction l as [|a l IH]; [done|].
  simpl. rewrite !filter_cons. destruct (decide (id a = x)) as [Ha|Ha].
  - rewrite decide_True by (by rewrite Hf). done.
  - rewrite decide_False by done. apply IH.
Qed.
End lists.

(** ** The disk under uploads and removals *)

Lemma upload_keeps f d q : existsSync d q = true → existsSync (upload_single f d) q = true.
Proof.
  rewrite !existsSync_true. destruct f as [u|]; simpl; [|done]. set_solver.
Qed.

Lemma upload_exists u d : path u ≠ "" → existsSync (upload_single (Some u) d) (path u) = true.
Proof. intros Hu. apply existsSync_true. simpl. set_solver. Qed.

Lemma cleanup_keeps p d d' q :
  cleanup_photo p d = Some d' → p ≠ Some q → existsSync d q = true → existsSync d' q = true.
Proof.
  intros Hc Hp Hq. destruct (cleanup_photo_spec p d) as (d2 & Hd2 & Hs).
  rewrite Hc in Hd2. injection Hd2 as <-.
  destruct p as [s|]; [|by subst].
  destruct (existsSync d s); [|by subst].
  destruct Hs as [Hf _]. apply existsSync_true in Hq as [Hq1 Hq2].
  apply existsSync_true. rewrite Hf. split; [done|].
  apply elem_of_difference. split; [done|].
  intros ->%elem_of_singleton. by apply Hp.
Qed.

Lemma cleanup_removes s d d' : cleanup_photo (Some s) d = Some d' → existsSync d' s = false.
Proof.
  intros Hc. destruct (cleanup_photo_spec (Some s) d) as (d2 & Hd2 & Hs).
  rewrite Hc in Hd2. injection Hd2 as <-.
  destruct (existsSync d s) eqn:E; [|by subst].
  destruct Hs as [Hf _]. apply bool_decide_eq_false. rewrite Hf. set_solver.
Qed.

(** ** Preservation of [store_ok] *)

Section store.
Implicit Types (l : list item) (i j : item) (n : Z) (d : disk).

Lemma store_ok_init d : store_ok [] 1 d.
Proof. split; [constructor|set_solver..]. Qed.

Lemma store_ok_upload f l n d : store_ok l n d → store_ok l n (upload_single f d).
Proof.
  intros [H1 H2 H3 H4]. split; [done..| |done].
  intros i p Hi Hp. apply upload_keeps. eauto.
Qed.

Lemma store_ok_register l n d nm ds f :
  store_ok l n d →
  match f with Some u => path u ≠ "" ∧ path u ∉ files d | None => True end →
  store_ok (l ++ [Item n nm ds (photo_path_of f)]) (n + 1) (upload_single f d).
Proof.
  intros [H1 H2 H3 H4] Hf.
  assert (Hnew : ∀ j p, j ∈ l → photo j = Some p → photo_path_of f ≠ Some p).
  { intros j p Hj Hp Hq. destruct f as [u|]; [|done]. simpl in Hq.
    injection Hq as <-. unfold path_resolve in *.
    apply H3 in Hp; [|done]. apply existsSync_true in Hp. tauto. }
  split.
  - rewrite fmap_app. simpl. apply NoDup_app. repeat split; [done| |apply NoDup_singleton].
    intros x (j & Hx & Hj)%list_elem_of_fmap Hn%list_elem_of_singleton.
    apply H2 in Hj. lia.
  - intros i [Hi| ->%list_elem_of_singleton]%elem_of_app; [apply H2 in Hi|simpl]; lia.
  - intros i p [Hi| ->%list_elem_of_singleton]%elem_of_app Hp.
    + apply upload_keeps. eauto.
    + simpl in Hp. destruct f as [u|]; [|done]. injection Hp as <-.
      apply upload_exists. tauto.
  - intros i j p [Hi| ->%list_elem_of_singleton]%elem_of_app
                 [Hj| ->%list_elem_of_singleton]%elem_of_app Hp Hq; simpl in *;
      [eauto| | |done].
    + by destruct (Hnew i p).
    + by destruct (Hnew j p).
Qed.

Lemma store_ok_update l1 i i' l2 n d :
  store_ok (l1 ++ i :: l2) n d → id i' = id i → photo i' = photo i →
  store_ok (l1 ++ i' :: l2) n d.
Proof.
  intros [H1 H2 H3 H4] Hid Hph.
  assert (Hin : ∀ j, j ∈ l1 ++ i' :: l2 →
            ∃ j', j' ∈ l1 ++ i :: l2 ∧ id j' = id j ∧ photo j' = photo j).
  { intros j. rewrite !elem_of_app, !elem_of_cons.
    intros [?|[->|?]]; [exists j|exists i|exists j]; rewrite ?elem_of_app, ?elem_of_cons; auto. }
  split.
  - revert H1. by rewrite !fmap_app, !fmap_cons, Hid.
  - intros j (j' & Hj & <- & _)%Hin. eauto.
  - intros j p (j' & Hj & _ & <-)%Hin. eauto.
  - intros j1 j2 p (j1' & Hj1 & <- & <-)%Hin (j2' & Hj2 & <- & <-)%Hin. eauto.
Qed.

Lemma store_ok_delete l1 i l2 n d d' :
  store_ok (l1 ++ i :: l2) n d → cleanup_photo (photo i) d = Some d' →
  store_ok (l1 ++ l2) n d'.
Proof.
  intros [H1 H2 H3 H4] Hc.
  pose proof (NoDup_ids_middle _ _ _ H1) as [Hl1 Hl2].
  assert (Hin : ∀ j, j ∈ l1 ++ l2 → j ∈ l1 ++ i :: l2 ∧ id j ≠ id i).
  { intros j. rewrite !elem_of_app, elem_of_cons. intros [?|?]; split; auto. }
  split.
  - revert H1. rewrite !fmap_app, fmap_cons, !NoDup_app, NoDup_cons. set_solver.
  - intros j [Hj _]%Hin. eauto.
  - intros j p [Hj Hne]%Hin Hp. eapply cleanup_keeps; [done| |by eauto].
    intros Hi. apply Hne. eapply H4; [done| |done..]. set_solver.
  - intros j1 j2 p [Hj1 _]%Hin [Hj2 _]%Hin. eauto.
Qed.

Lemma store_ok_replace l1 i l2 n d d' u :
  store_ok (l1 ++ i :: l2) n d → path u ≠ "" → path u ∉ files d →
  cleanup_photo (photo i) (upload_single (Some u) d) = Some d' →
  store_ok (l1 ++ set_photo i (Some (path_resolve (path u))) :: l2) n d'.
Proof.
  intros [H1 H2 H3 H4] Hu Hfresh Hc. unfold path_resolve.
  pose proof (NoDup_ids_middle _ _ _ H1) as [Hl1 Hl2].
  assert (Hi : i ∈ l1 ++ i :: l2) by set_solver.
  assert (Hold : photo i ≠ Some (path u)).
  { intros Hp. apply H3 in Hp; [|done]. apply existsSync_true in Hp. tauto. }
  assert (Hin : ∀ j, j ∈ l1 ++ l2 → j ∈ l1 ++ i :: l2 ∧ id j ≠ id i).
  { intros j. rewrite !elem_of_app, elem_of_cons. intros [?|?]; split; auto. }
  assert (Hother : ∀ j p, j ∈ l1 ++ l2 → photo j = Some p →
            p ≠ path u ∧ existsSync d' p = true).
  { intros j p [Hj Hne]%Hin Hp. split.
    - intros ->. apply H3 in Hp; [|done]. apply existsSync_true in Hp. tauto.
    - eapply cleanup_keeps; [done| |apply upload_keeps; by eauto].
      intros Hq. apply Hne. eapply H4; [done| |done..]. done. }
  assert (Hcases : ∀ j, j ∈ l1 ++ set_photo i (Some (path u)) :: l2 →
            j = set_photo i (Some (path u)) ∨ j ∈ l1 ++ l2).
  { intros j. rewrite !elem_of_app, elem_of_cons. tauto. }
  split.
  - revert H1. by rewrite !fmap_app, !fmap_cons.
  - intros j [->|[Hj _]%Hin]%Hcases; simpl; eauto.
  - intros j p [->|Hj]%Hcases Hp.
    + simpl in Hp. injection Hp as <-.
      eapply cleanup_keeps; [done..|]. by apply upload_exists.
    + by destruct (Hother j p).
  - intros j1 j2 p [->|Hj1]%Hcases [->|Hj2]%Hcases Hp1 Hp2; simpl in *; [done| | |].
    + injection Hp1 as <-. by destruct (Hother j2 (path u)).
    + injection Hp2 as <-. by destruct (Hother j1 (path u)).
    + apply Hin in Hj1 as [??], Hj2 as [??]. eauto.
Qed.
End store.

(** ** What each route does to the store, for both variants *)

Lemma id_param_Some y x : Sql.id_param y = Some x → y = PInt x ∧ Sql.int4 x = true.
Proof.
  destruct y as [n|]; simpl; [|done]. destruct (Sql.int4 n) eqn:E; [|done].
  by intros [= <-].
Qed.


Section views.
Context (v : variant).
Implicit Types (s : state_of v) (i j : item) (x : Z) (y : parsed).

Lemma lookup_find s x :
  id_ok v x = true → lookup_item v s x = snd <$> Mem.find_id x (records v s).
Proof.
  destruct v; simpl; [done|]. destruct (Sql.int4 x); [intros _; apply select_head|done].
Qed.

Lemma lookup_id_ok s x i : lookup_item v s x = Some i → id_ok v x = true.
Proof. destruct v; simpl; [done|]. by destruct (Sql.int4 x). Qed.

Lemma lookup_split s x i :
  lookup_item v s x = Some i →
  ∃ l1 l2, records v s = l1 ++ i :: l2 ∧ id i = x ∧ ∀ j, j ∈ l1 → id j ≠ x.
Proof.
  intros E. rewrite (lookup_find s x (lookup_id_ok s x i E)) in E.
  destruct (Mem.find_id x (records v s)) as [[k a]|] eqn:F; [|done].
  injection E as <-. destruct (find_split _ _ _ _ F) as (l1 & l2 & ? & ? & ? & ?). eauto.
Qed.

Lemma lookup_middle s l1 i l2 :
  id_ok v (id i) = true →
  records v s = l1 ++ i :: l2 → (∀ j, j ∈ l1 → id j ≠ id i) →
  lookup_item v s (id i) = Some i.
Proof. intros Hx Hr Hl1. by rewrite lookup_find, Hr, find_middle. Qed.

Lemma lookup_at s x l1 i l2 :
  id_ok v x = true →
  records v s = l1 ++ i :: l2 → id i = x → (∀ j, j ∈ l1 → id j ≠ x) →
  lookup_item v s x = Some i.
Proof. intros Hx Hr <- Hl1. by apply (lookup_middle s l1 i l2). Qed.

Lemma lookup_off s x : (∀ j, j ∈ records v s → id j ≠ x) → lookup_item v s x = None.
Proof.
  intros Hoff. destruct (id_ok v x) eqn:Hx.
  - rewrite lookup_find by done. by rewrite (proj2 (find_None x (records v s)) Hoff).
  - destruct (lookup_item v s x) as [i|] eqn:E; [|done].
    apply lookup_id_ok in E. congruence.
Qed.


Lemma lookup_elem_of s x i : lookup_item v s x = Some i → i ∈ records v s ∧ id i = x.
Proof. intros (l1 & l2 & -> & ? & _)%lookup_split. set_solver. Qed.

Lemma elem_of_lookup s i :
  id_ok v (id i) = true →
  NoDup (id <$> records v s) → i ∈ records v s → lookup_item v s (id i) = Some i.
Proof.
  intros Hx Hnd (l1 & l2 & Hr)%list_elem_of_split. rewrite Hr in Hnd.
  apply (lookup_middle s l1 i l2 Hx Hr). by apply NoDup_ids_middle in Hnd as [? _].
Qed.

Lemma lookup_parsed_Some s y i :
  lookup_parsed v s y = Some i → ∃ x, y = PInt x ∧ lookup_item v s x = Some i.
Proof. destruct y as [x|]; [eauto|done]. Qed.

(** What is found by the in-memory [find] is what [lookup_parsed] gives. *)
Lemma lookup_parsed_mem (m : Mem.state) y :
  lookup_parsed InMemory m y = snd <$> Mem.find y (Mem.inventory m).
Proof. by destruct y. Qed.

(** A request on which a query throws: the stores are left alone and the
    answer is the one of the [catch] branch. *)
Lemma view_refused s r :
  db_refuses v r s = true →
  records v (after v r s) = records v s ∧
  counter v (after v r s) = counter v s ∧
  disk_of v (after v r s) = upload_single (request_file r) (disk_of v s) ∧
  respond v r s = database_error.
Proof.
  unfold after, respond. destruct v; simpl; [done|].
  destruct r as [nm ds f| |y|y nm ds|y|y f|y|y p]; simpl; try done.
  - intros [Hnm Hins%negb_true_iff]%andb_true_iff.
    unfold Sql.post_register, Sql.insert_returning. rewrite Hnm. simpl.
    unfold Sql.insert_ok in *. simpl. by rewrite Hins.
  - unfold Sql.get_inventory_id. by destruct (Sql.id_param y).
  - unfold Sql.put_inventory_id. destruct (Sql.id_param y) as [x|]; [|done].
    destruct (Sql.select_where_id x (Sql.items s)); [done|].
    by intros ->%negb_true_iff.
  - unfold Sql.get_inventory_id_photo. by destruct (Sql.id_param y).
  - unfold Sql.put_inventory_id_photo. simpl.
    destruct f as [u|]; [|done]. by destruct (Sql.id_param y).
  - unfold Sql.delete_inventory_id. by destruct (Sql.id_param y).
  - unfold Sql.post_search. by destruct (Sql.id_param y).
Qed.


(** Registration. *)
Lemma view_register s nm ds f :
  truthy nm = true → db_refuses v (PostRegister nm ds f) s = false →
  let r := PostRegister nm ds f in
  let it := stored_record v (counter v s) nm ds f in
  records v (after v r s) = records v s ++ [it] ∧
  counter v (after v r s) = counter v s + 1 ∧
  disk_of v (after v r s) = upload_single f (disk_of v s) ∧
  respond v r s = Response 201 (BItem it).
Proof.
  intros Hnm Href. unfold after, respond. destruct v; simpl in *.
  - unfold Mem.post_register. rewrite Hnm. simpl. done.
  - rewrite Hnm in Href. simpl in Href. apply negb_false_iff in Href.
    unfold Sql.post_register, Sql.insert_returning. rewrite Hnm. simpl.
    unfold Sql.insert_ok in *. simpl. by rewrite Href.
Qed.

Lemma view_register_rejected s nm ds f :
  truthy nm = false →
  let r := PostRegister nm ds f in
  records v (after v r s) = records v s ∧
  counter v (after v r s) = counter v s ∧
  disk_of v (after v r s) = upload_single f (disk_of v s) ∧
  respond v r s = bad_request_name.
Proof.
  intros Hnm. unfold after, respond.
  destruct v; simpl;
    [unfold Mem.post_register | unfold Sql.post_register]; rewrite Hnm; simpl; done.
Qed.


(** Field update of a stored record. *)
Lemma view_update s x nm ds l1 i l2 :
  NoDup (id <$> records v s) →
  records v s = l1 ++ i :: l2 → id i = x → (∀ j, j ∈ l1 → id j ≠ x) →
  db_refuses v (PutInventoryId x nm ds) s = false →
  let r := PutInventoryId x nm ds in
  let i' := updated_record v nm ds i in
  records v (after v r s) = l1 ++ i' :: l2 ∧
  counter v (after v r s) = counter v s ∧
  disk_of v (after v r s) = disk_of v s ∧
  respond v r s = Response 200 (BItem i').
Proof.
  intros Hnd Hr Hi Hl1 Href. unfold after, respond. destruct v; simpl in *.
  - unfold Mem.put_inventory_id. simpl. rewrite Hr, (find_middle x l1 i l2) by done.
    simpl. by rewrite insert_middle_item.
  - unfold Sql.put_inventory_id. simpl.
    destruct (Sql.int4 x); [|done].
    pose proof (select_head x (Sql.items s)) as Hh.
    rewrite Hr, (find_middle x l1 i l2) in Hh by done. rewrite <- Hr in Hh.
    destruct (Sql.select_where_id x (Sql.items s)) as [|a t] eqn:E; [done|].
    apply negb_false_iff in Href. rewrite Href.
    unfold Sql.update_fields. subst x. rewrite Hr in *.
    rewrite map_ids_middle by done.
    pose proof (select_head (id i) (l1 ++ Sql.update_fields_row nm ds i :: l2)) as Hh2.
    rewrite (find_middle (id i) l1 _ l2) in Hh2 by done.
    destruct (Sql.select_where_id _ (l1 ++ Sql.update_fields_row nm ds i :: l2))
      as [|b t2] eqn:E2; [done|].
    simpl in Hh2. injection Hh2 as ->. done.
Qed.

(** Photo replacement on a stored record, with a file. *)
Lemma view_replace s x u l1 i l2 :
  NoDup (id <$> records v s) →
  records v s = l1 ++ i :: l2 → id i = x → (∀ j, j ∈ l1 → id j ≠ x) →
  id_ok v x = true →
  let r := PutInventoryIdPhoto x (Some u) in
  ∃ d', cleanup_photo (photo i) (upload_single (Some u) (disk_of v s)) = Some d' ∧
    records v (after v r s) = l1 ++ set_photo i (Some (path_resolve (path u))) :: l2 ∧
    counter v (after v r s) = counter v s ∧
    disk_of v (after v r s) = d' ∧
    respond v r s = photo_updated.
Proof.
  intros Hnd Hr Hi Hl1 Hx.
  destruct (cleanup_photo_spec (photo i) (upload_single (Some u) (disk_of v s)))
    as (d' & Hc & _).
  exists d'. split; [done|]. unfold after, respond. destruct v; simpl in *.
  - unfold Mem.put_inventory_id_photo. simpl.
    rewrite Hr, (find_middle x l1 i l2) by done. rewrite Hc. simpl.
    by rewrite insert_middle_item.
  - unfold Sql.put_inventory_id_photo. simpl.
    destruct (Sql.int4 x); [|done].
    pose proof (select_head x (Sql.items s)) as Hh.
    rewrite Hr, (find_middle x l1 i l2) in Hh by done. rewrite <- Hr in Hh.
    destruct (Sql.select_where_id x (Sql.items s)) as [|a t] eqn:E; [done|].
    simpl in Hh. injection Hh as ->. rewrite Hc. simpl.
    unfold Sql.update_photo. subst x. rewrite Hr in *.
    by rewrite map_ids_middle.
Qed.

(** Deletion of a stored record. *)
Lemma view_delete s x l1 i l2 :
  NoDup (id <$> records v s) →
  records v s = l1 ++ i :: l2 → id i = x → (∀ j, j ∈ l1 → id j ≠ x) →
  id_ok v x = true →
  let r := DeleteInventoryId x in
  ∃ d', cleanup_photo (photo i) (disk_of v s) = Some d' ∧
    records v (after v r s) = l1 ++ l2 ∧
    counter v (after v r s) = counter v s ∧
    disk_of v (after v r s) = d' ∧
    respond v r s = item_deleted.
Proof.
  intros Hnd Hr Hi Hl1 Hx.
  destruct (cleanup_photo_spec (photo i) (disk_of v s)) as (d' & Hc & _).
  exists d'. split; [done|]. unfold after, respond. destruct v; simpl in *.
  - unfold Mem.delete_inventory_id. simpl.
    rewrite Hr, (find_middle x l1 i l2) by done. rewrite Hc. simpl.
    by rewrite delete_middle.
  - unfold Sql.delete_inventory_id. simpl.
    destruct (Sql.int4 x); [|done].
    pose proof (select_head x (Sql.items s)) as Hh.
    rewrite Hr, (find_middle x l1 i l2) in Hh by done. rewrite <- Hr in Hh.
    destruct (Sql.select_where_id x (Sql.items s)) as [|a t] eqn:E; [done|].
    simpl in Hh. injection Hh as ->. rewrite Hc. simpl.
    subst x. rewrite Hr in *. by rewrite delete_where_middle.
Qed.

(** Requests under whose route parameter nothing is found, apart from the
    photo replacement whose answer depends on the variant: 404 when the
    query runs, 500 when it throws. *)
Lemma view_unknown s y r :
  lookup_parsed v s y = None →
  r ∈ [GetInventoryId y; GetInventoryIdPhoto y; DeleteInventoryId y] ∨
  (∃ nm ds, r = PutInventoryId y nm ds) ∨ (∃ p, r = PostSearch y p) →
  after v r s = s ∧
  respond v r s = if id_ok v y then not_found else database_error.
Proof.
  intros Hl Hr. unfold after, respond. destruct v; simpl in *.
  - rewrite lookup_parsed_mem in Hl.
    assert (Hm : Mem.find y (Mem.inventory s) = None)
      by (by destruct (Mem.find y (Mem.inventory s))).
    destruct Hr as [Hr|[(nm & ds & ->)|(p & ->)]];
      [repeat (apply elem_of_cons in Hr as [->|Hr]); [..|by apply elem_of_nil in Hr]|..];
      simpl;
      unfold Mem.get_inventory_id, Mem.get_inventory_id_photo, Mem.delete_inventory_id,
        Mem.put_inventory_id, Mem.post_search; by rewrite Hm.
  - assert (Hq : ∀ x, Sql.id_param y = Some x → Sql.select_where_id x (Sql.items s) = []).
    { intros x Hx. pose proof Hx as [-> _]%id_param_Some. simpl in Hl, Hx.
      rewrite Hx in Hl. by destruct (Sql.select_where_id x (Sql.items s)). }
    destruct Hr as [Hr|[(nm & ds & ->)|(p & ->)]];
      [repeat (apply elem_of_cons in Hr as [->|Hr]); [..|by apply elem_of_nil in Hr]|..];
      simpl;
      unfold Sql.get_inventory_id, Sql.get_inventory_id_photo, Sql.delete_inventory_id,
        Sql.put_inventory_id, Sql.post_search;
      (destruct (Sql.id_param y) as [x|]; [|done]); by rewrite (Hq x eq_refl).
Qed.

(** The read routes answer from the record [lookup_item] returns and leave
    the state alone. *)
Lemma view_get s x i :
  lookup_item v s x = Some i →
  handle v (GetInventoryId x) s = (s, Response 200 (BItemLink i (photo_url_of i))).
Proof.
  destruct v; simpl.
  - unfold Mem.get_inventory_id. simpl.
    by destruct (Mem.find_id _ _) as [[??]|]; intros [= ->].
  - unfold Sql.get_inventory_id. simpl. destruct (Sql.int4 x); [|done].
    by destruct (Sql.select_where_id _ _); intros [= ->].
Qed.

Lemma view_search s x p i :
  lookup_item v s x = Some i →
  handle v (PostSearch x p) s = (s, Response 200 (BItem (search_output i p))).
Proof.
  destruct v; simpl.
  - unfold Mem.post_search. simpl.
    by destruct (Mem.find_id _ _) as [[??]|]; intros [= ->].
  - unfold Sql.post_search. simpl. destruct (Sql.int4 x); [|done].
    by destruct (Sql.select_where_id _ _); intros [= ->].
Qed.

Lemma view_get_photo s x i :
  lookup_item v s x = Some i →
  handle v (GetInventoryIdPhoto x) s =
    (s, match photo i with
        | Some p => if photo_truthy (photo i) && existsSync (disk_of v s) p
                    then Response 200 (BFile p) else not_found
        | None => not_found
        end).
Proof.
  destruct v; simpl.
  - unfold Mem.get_inventory_id_photo. simpl.
    destruct (Mem.find_id _ _) as [[??]|]; intros [= ->]; simpl.
    destruct (photo i); [|done]. by destruct (_ && _).
  - unfold Sql.get_inventory_id_photo. simpl. destruct (Sql.int4 x); [|done].
    destruct (Sql.select_where_id _ _); intros [= ->]; simpl.
    destruct (photo i); [|done]. by destruct (_ && _).
Qed.
End views.

Lemma updated_record_id v nm ds i : id (updated_record v nm ds i) = id i.
Proof.
  destruct v; simpl; [|done].
  unfold Mem.assign_fields. by destruct (truthy nm), (truthy ds).
Qed.

Lemma updated_record_photo v nm ds i : photo (updated_record v nm ds i) = photo i.
Proof.
  destruct v; simpl; [|done].
  unfold Mem.assign_fields. by destruct (truthy nm), (truthy ds).
Qed.

Lemma view_list v s : after v GetInventory s = s.
Proof. by destruct v. Qed.

(** A photo replacement that is turned down: the item store is left alone,
    and the answer depends on which check the variant makes first. *)
Lemma view_replace_rejected v s (y : parsed) f :
  f = None ∨ lookup_parsed v s y = None →
  let r := PutInventoryIdPhoto y f in
  records v (after v r s) = records v s ∧
  counter v (after v r s) = counter v s ∧
  disk_of v (after v r s) = upload_single f (disk_of v s) ∧
  respond v r s =
    match v with
    | InMemory =>
        match lookup_parsed v s y with Some _ => bad_request_photo | None => not_found end
    | SqlBacked =>
        match f with
        | Some _ => if id_ok v y then not_found else database_error
        | None => bad_request_photo
        end
    end.
Proof.
  intros Hrej. unfold after, respond. destruct v; simpl in *.
  - rewrite lookup_parsed_mem in *. unfold Mem.put_inventory_id_photo. simpl.
    destruct (Mem.find y (Mem.inventory s)) as [[k i]|]; simpl in *; [|done].
    destruct Hrej as [->|?]; done.
  - unfold Sql.put_inventory_id_photo. simpl.
    destruct f as [u|]; [|done]. destruct Hrej as [?|Hn]; [done|].
    destruct (Sql.id_param y) as [x|] eqn:Hx; [|done].
    pose proof Hx as [-> _]%id_param_Some. simpl in Hn, Hx. rewrite Hx in Hn.
    by destruct (Sql.select_where_id x (Sql.items s)).
Qed.

(** ** The store stays consistent *)

Lemma consistent_init v d : consistent v (init v d).
Proof. split; [destruct v; apply store_ok_init|destruct v; simpl; set_solver]. Qed.

Lemma consistent_step v s r :
  consistent v s → fresh_upload r (disk_of v s) → consistent v (after v r s).
Proof.
  intros [Hok Hrange] Hfresh. pose proof (ok_ids_nodup _ _ _ Hok) as Hnd.
  assert (Hsame : after v r s = s → consistent v (after v r s)) by (by intros ->).
  assert (Hkeep : records v (after v r s) = records v s →
            counter v (after v r s) = counter v s →
            disk_of v (after v r s) = upload_single (request_file r) (disk_of v s) →
            consistent v (after v r s)).
  { intros Hr Hc Hd. split; [rewrite Hr, Hc, Hd; by apply store_ok_upload|by rewrite Hr]. }
  destruct (db_refuses v r s) eqn:Href.
  { destruct (view_refused v s r Href) as (? & ? & ? & _). by apply Hkeep. }
  destruct r as [nm ds f| |x|x nm ds|x|x f|x|x p].
  - destruct (truthy nm) eqn:Hnm.
    + destruct (view_register v s nm ds f Hnm Href) as (Hr & Hc & Hd & _).
      split.
      * rewrite Hr, Hc, Hd. destruct v; by apply store_ok_register.
      * rewrite Hr. intros i [Hi| ->%list_elem_of_singleton]%elem_of_app; [auto|].
        destruct v; simpl in *; [done|]. rewrite Hnm in Href. simpl in Href.
        apply negb_false_iff in Href. unfold Sql.insert_ok in Href.
        apply andb_true_iff in Href as [_ ->]. done.
    + destruct (view_register_rejected v s nm ds f Hnm) as (? & ? & ? & _). by apply Hkeep.
  - apply Hsame, view_list.
  - apply Hsame. by_lookup v s x i E.
    + unfold after. by rewrite (view_get v s x i E).
    + by destruct (view_unknown v s x (GetInventoryId x) E) as [-> _]; [set_solver|].
  - by_lookup v s x i E.
    + destruct (lookup_split v s x i E) as (l1 & l2 & Hr & Hi & Hl1).
      destruct (view_update v s x nm ds l1 i l2 Hnd Hr Hi Hl1 Href) as (Hr' & Hc & Hd & _).
      split.
      * rewrite Hr', Hc, Hd. rewrite Hr in Hok. eapply store_ok_update; [done|..].
        -- apply updated_record_id.
        -- apply updated_record_photo.
      * rewrite Hr'. rewrite Hr in Hrange.
        intros j [Hj|[->|Hj]%elem_of_cons]%elem_of_app;
          [apply Hrange; set_solver| |apply Hrange; set_solver].
        rewrite updated_record_id. apply Hrange. set_solver.
    + apply Hsame.
      by destruct (view_unknown v s x (PutInventoryId x nm ds) E) as [-> _]; [eauto|].
  - apply Hsame. by_lookup v s x i E.
    + unfold after. by rewrite (view_get_photo v s x i E).
    + by destruct (view_unknown v s x (GetInventoryIdPhoto x) E) as [-> _]; [set_solver|].
  - destruct f as [u|]; by_lookup v s x i E.
    + destruct (lookup_split v s x i E) as (l1 & l2 & Hr & Hi & Hl1).
      destruct (view_replace v s x u l1 i l2 Hnd Hr Hi Hl1 (lookup_id_ok v s x i E))
        as (d' & Hc & Hr' & Hc' & Hd & _).
      split.
      * rewrite Hr', Hc', Hd. rewrite Hr in Hok. destruct Hfresh as [Hu Hnew].
        by eapply store_ok_replace.
      * rewrite Hr'. rewrite Hr in Hrange.
        intros j [Hj|[->|Hj]%elem_of_cons]%elem_of_app;
          [apply Hrange; set_solver| |apply Hrange; set_solver].
        simpl. apply Hrange. set_solver.
    + destruct (view_replace_rejected v s x (Some u)) as (? & ? & ? & _); [by right|].
      by apply Hkeep.
    + destruct (view_replace_rejected v s x None) as (? & ? & ? & _); [by left|].
      by apply Hkeep.
    + destruct (view_replace_rejected v s x None) as (? & ? & ? & _); [by left|].
      by apply Hkeep.
  - by_lookup v s x i E.
    + destruct (lookup_split v s x i E) as (l1 & l2 & Hr & Hi & Hl1).
      destruct (view_delete v s x l1 i l2 Hnd Hr Hi Hl1 (lookup_id_ok v s x i E))
        as (d' & Hc & Hr' & Hc' & Hd & _).
      split.
      * rewrite Hr', Hc', Hd. rewrite Hr in Hok. by eapply store_ok_delete.
      * rewrite Hr'. rewrite Hr in Hrange. intros j Hj. apply Hrange. set_solver.
    + apply Hsame.
      by destruct (view_unknown v s x (DeleteInventoryId x) E) as [-> _]; [set_solver|].
  - apply Hsame. by_lookup v s x i E.
    + unfold after. by rewrite (view_search v s x p i E).
    + by destruct (view_unknown v s x (PostSearch x p) E) as [-> _]; [eauto|].
Qed.

Lemma reachable_consistent v s : reachable v s → consistent v s.
Proof.
  induction 1 as [d|s r _ IH Hfresh]; [apply consistent_init|by apply consistent_step].
Qed.

Lemma ok_nodup v s : consistent v s → NoDup (id <$> records v s).
Proof. intros [Hok _]. apply (ok_ids_nodup _ _ _ Hok). Qed.

(** ** Partial update of name and description *)

(** In memory a falsy field (omitted, [null] or empty) is skipped. *)
Lemma mem_update_skips_falsy nm ds i :
  (truthy nm = false → name (Mem.assign_fields nm ds i) = name i) ∧
  (truthy ds = false → description (Mem.assign_fields nm ds i) = description i).
Proof.
  unfold Mem.assign_fields. split; intros ->; by destruct (truthy _).
Qed.

(** [COALESCE] skips a field that is omitted or [null], in either variant. *)
Lemma update_keeps_omitted v nm ds i :
  (nm = JUndefined ∨ nm = JNull → name (updated_record v nm ds i) = name i) ∧
  (ds = JUndefined ∨ ds = JNull → description (updated_record v nm ds i) = description i).
Proof.
  destruct v; simpl.
  - split; intros H; apply mem_update_skips_falsy; by destruct H as [-> | ->].
  - split; intros [-> | ->]; done.
Qed.

(** [COALESCE] does not skip the empty string. *)
Lemma sql_update_takes_empty ds i :
  name (Sql.update_fields_row (JStr "") ds i) = JStr "".
Proof. done. Qed.

(** C1: an update that supplies an empty name leaves the stored name as it
    was.  Evaluated on a store holding the item "Laptop" with id 1: the
    in-memory variant keeps the name, the SQL-backed variant replaces it by
    the empty string. *)
Theorem sql_update_with_empty_name_overwrites :
  let r := PutInventoryId 1 (JStr "") JUndefined in
  name <$> lookup_item SqlBacked (two_items SqlBacked) 1 = Some (JStr "Laptop") ∧
  name <$> lookup_item SqlBacked (after SqlBacked r (two_items SqlBacked)) 1 = Some (JStr "") ∧
  name <$> lookup_item InMemory (after InMemory r (two_items InMemory)) 1 = Some (JStr "Laptop").
Proof. vm_compute. done. Qed.

Lemma state_ext v (s s' : state_of v) :
  records v s = records v s' → counter v s = counter v s' → disk_of v s = disk_of v s' →
  s = s'.
Proof. destruct v, s, s'; simpl; congruence. Qed.

(** ** The two variants side by side *)




Lemma NoDup_ids_delete (l1 l2 : list item) i :
  NoDup (id <$> l1 ++ i :: l2) → NoDup (id <$> l1 ++ l2).
Proof. rewrite !fmap_app, fmap_cons, !NoDup_app, NoDup_cons. set_solver. Qed.









Example sample_statuses :
  statuses InMemory sample_requests (init InMemory d0)
    = [201; 400; 200; 200; 400; 404; 200; 200; 200; 200; 404] ∧
  statuses SqlBacked sample_requests (init SqlBacked d0)
    = [201; 400; 200; 200; 400; 400; 200; 200; 200; 200; 404].
Proof. by vm_compute. Qed.



(** ** Photo files of stored items *)

(** The four ways a request can leave the item store. *)
Lemma store_change v s r :
  NoDup (id <$> records v s) →
  (records v (after v r s) = records v s ∧ counter v (after v r s) = counter v s) ∨
  (∃ nm ds f, r = PostRegister nm ds f ∧ truthy nm = true ∧
     records v (after v r s) = records v s ++ [stored_record v (counter v s) nm ds f] ∧
     counter v (after v r s) = counter v s + 1) ∨
  (∃ x l1 i i' l2, request_target r = Some x ∧
     records v s = l1 ++ i :: l2 ∧ id i = x ∧ (∀ j, j ∈ l1 → id j ≠ x) ∧
     records v (after v r s) = l1 ++ i' :: l2 ∧ counter v (after v r s) = counter v s ∧
     ((∃ nm ds, r = PutInventoryId x nm ds ∧ i' = updated_record v nm ds i) ∨
      (∃ u, r = PutInventoryIdPhoto x (Some u) ∧ i' = set_photo i (Some (path u))))) ∨
  (∃ (x : Z) l1 i l2, r = DeleteInventoryId x ∧
     records v s = l1 ++ i :: l2 ∧ id i = x ∧ (∀ j, j ∈ l1 → id j ≠ x) ∧
     records v (after v r s) = l1 ++ l2 ∧ counter v (after v r s) = counter v s).
Proof.
  intros Hnd.
  assert (Hsame : after v r s = s →
            records v (after v r s) = records v s ∧ counter v (after v r s) = counter v s)
    by (by intros ->).
  destruct (db_refuses v r s) eqn:Href.
  { left. by destruct (view_refused v s r Href) as (? & ? & _). }
  destruct r as [nm ds f| |x|x nm ds|x|x f|x|x p].
  - destruct (truthy nm) eqn:Hnm.
    + destruct (view_register v s nm ds f Hnm Href) as (Hr & Hc & _).
      right. left. by exists nm, ds, f.
    + destruct (view_register_rejected v s nm ds f Hnm) as (Hr & Hc & _). by left.
  - left. apply Hsame, view_list.
  - left. apply Hsame. by_lookup v s x a E.
    + unfold after. by rewrite (view_get v s x a E).
    + by destruct (view_unknown v s x (GetInventoryId x) E) as [-> _]; [set_solver|].
  - by_lookup v s x a E.
    + destruct (lookup_split v s x a E) as (l1 & l2 & Hr & Ha & Hl1).
      destruct (view_update v s x nm ds l1 a l2 Hnd Hr Ha Hl1 Href) as (Hr' & Hc & _).
      right. right. left. exists x, l1, a, (updated_record v nm ds a), l2.
      repeat split; try done. left. eauto.
    + left. apply Hsame.
      by destruct (view_unknown v s x (PutInventoryId x nm ds) E) as [-> _]; [eauto|].
  - left. apply Hsame. by_lookup v s x a E.
    + unfold after. by rewrite (view_get_photo v s x a E).
    + by destruct (view_unknown v s x (GetInventoryIdPhoto x) E) as [-> _]; [set_solver|].
  - destruct f as [u|]; by_lookup v s x a E.
    + destruct (lookup_split v s x a E) as (l1 & l2 & Hr & Ha & Hl1).
      destruct (view_replace v s x u l1 a l2 Hnd Hr Ha Hl1 (lookup_id_ok v s x a E))
        as (d' & _ & Hr' & Hc & _).
      right. right. left. exists x, l1, a, (set_photo a (Some (path u))), l2.
      repeat split; try done. right. eauto.
    + left. by destruct (view_replace_rejected v s x (Some u)) as (? & ? & _); [by right|].
    + left. by destruct (view_replace_rejected v s x None) as (? & ? & _); [by left|].
    + left. by destruct (view_replace_rejected v s x None) as (? & ? & _); [by left|].
  - by_lookup v s x a E.
    + destruct (lookup_split v s x a E) as (l1 & l2 & Hr & Ha & Hl1).
      destruct (view_delete v s x l1 a l2 Hnd Hr Ha Hl1 (lookup_id_ok v s x a E))
        as (d' & _ & Hr' & Hc & _).
      right. right. right. by exists x, l1, a, l2.
    + left. apply Hsame.
      by destruct (view_unknown v s x (DeleteInventoryId x) E) as [-> _]; [set_solver|].
  - left. apply Hsame. by_lookup v s x a E.
    + unfold after. by rewrite (view_search v s x p a E).
    + by destruct (view_unknown v s x (PostSearch x p) E) as [-> _]; [eauto|].
Qed.

(** What a request leaves of a stored record [i]: unless it deletes [i], a
    record with the id of [i] stays, with the same photo unless the request
    replaces the photo of [i], and with the same name and description unless
    it updates the fields of [i]. *)
Lemma record_kept v s r i :
  NoDup (id <$> records v s) → i ∈ records v s →
  r = DeleteInventoryId (id i) ∨
  ∃ j, j ∈ records v (after v r s) ∧ id j = id i ∧
    (photo j = photo i ∨ ∃ u, r = PutInventoryIdPhoto (id i) (Some u)) ∧
    ((name j = name i ∧ description j = description i) ∨
     ∃ nm ds, r = PutInventoryId (id i) nm ds).
Proof.
  intros Hnd Hi.
  assert (Hmid : ∀ l1 a l2, records v s = l1 ++ a :: l2 → a ≠ i → i ∈ l1 ++ l2).
  { intros l1 a l2 Hr Ha. rewrite Hr in Hi. set_solver. }
  destruct (store_change v s r Hnd)
    as [[Hr _]|[(nm & ds & f & -> & Hnm & Hr & _)
       |[(x & l1 & a & a' & l2 & Hx & Hr0 & Ha & _ & Hr & _ & Ha')
        |(x & l1 & a & l2 & -> & Hr0 & Ha & _ & Hr & _)]]].
  - right. exists i. rewrite Hr. naive_solver.
  - right. exists i. rewrite Hr. split; [set_solver|naive_solver].
  - right. rewrite Hr. destruct (decide (a = i)) as [->|Hne].
    + destruct Ha' as [(nm & ds & -> & ->)|(u & -> & ->)].
      * exists (updated_record v nm ds i).
        rewrite updated_record_id, updated_record_photo.
        split; [set_solver|]. split; [done|]. split; [by left|]. right. rewrite Ha. eauto.
      * exists (set_photo i (Some (path u))). simpl.
        split; [set_solver|]. split; [done|]. split; [|by left]. right. rewrite Ha. eauto.
    + exists i. specialize (Hmid l1 a l2 Hr0 Hne). split; [set_solver|naive_solver].
  - destruct (decide (a = i)) as [->|Hne].
    + left. by rewrite Ha.
    + right. exists i. rewrite Hr. specialize (Hmid l1 a l2 Hr0 Hne).
      split; [set_solver|naive_solver].
Qed.


(** C3: in every reachable state of either variant the photo of every stored
    item exists on disk, and the next request keeps a record with that id and
    photo in the store unless it deletes the item or replaces its photo. *)
Theorem referenced_photo_exists (v : variant) (s : state_of v) (i : item) (p : string) :
  reachable v s → i ∈ records v s → photo i = Some p →
  existsSync (disk_of v s) p = true ∧
  ∀ r, (∃ j, j ∈ records v (after v r s) ∧ id j = id i ∧ photo j = Some p) ∨
       r = DeleteInventoryId (id i) ∨ (∃ u, r = PutInventoryIdPhoto (id i) (Some u)).
Proof.
  intros Hs Hi Hp. apply reachable_consistent in Hs as Hok. split.
  - by apply (ok_photo_exists _ _ _ (ok_store _ _ Hok) i p).
  - intros r.
    destruct (record_kept v s r i (ok_ids_nodup _ _ _ (ok_store _ _ Hok)) Hi)
      as [->|(j & Hj & Hid & [Hph|Hph] & _)]; [auto| |auto].
    left. exists j. by rewrite Hph.
Qed.

Lemma two_items_reachable v : reachable v (two_items v).
Proof.
  unfold two_items.
  apply (reachable_step v _ phone); [apply (reachable_step v _ laptop)|].
  - apply reachable_init.
  - destruct v; (split; [done|]); simpl; set_solver.
  - by destruct v.
Qed.

Lemma referenced_photo_exists_witness :
  existsSync (disk_of InMemory (two_items InMemory)) "/cache/a1" = true ∧
  ∀ r, (∃ j, j ∈ records InMemory (after InMemory r (two_items InMemory)) ∧
             id j = 1 ∧ photo j = Some "/cache/a1") ∨
       r = DeleteInventoryId 1 ∨ (∃ u, r = PutInventoryIdPhoto 1 (Some u)).
Proof.
  apply (referenced_photo_exists InMemory (two_items InMemory)
           (Item 1 (JStr "Laptop") (JStr "16GB RAM") (Some "/cache/a1")) "/cache/a1").
  - apply two_items_reachable.
  - vm_compute. set_solver.
  - reflexivity.
Defined.

(** ** Removing the superseded photo file *)

Lemma cleanup_route v s (x : Z) i r :
  lookup_item v s x = Some i →
  r = DeleteInventoryId x ∨ (∃ u, r = PutInventoryIdPhoto x (Some u)) →
  ∃ d', cleanup_photo (photo i) (upload_single (request_file r) (disk_of v s)) = Some d' ∧
    disk_of v (after v r s) = d' ∧ status (respond v r s) = 200.
Proof.
  intros Hl Hr.
  destruct (cleanup_photo_spec (photo i) (upload_single (request_file r) (disk_of v s)))
    as (d' & Hc & _).
  exists d'. split; [done|]. unfold after, respond.
  destruct v; simpl in *.
  - destruct (Mem.find_id x (Mem.inventory s)) as [[k a]|] eqn:E; [|done].
    simpl in Hl. injection Hl as ->.
    destruct Hr as [->|[u ->]]; simpl in *.
    + unfold Mem.delete_inventory_id. simpl. by rewrite E, Hc.
    + unfold Mem.put_inventory_id_photo. simpl. by rewrite E, Hc.
  - destruct (Sql.int4 x) eqn:Hx; [|done].
    destruct (Sql.select_where_id x (Sql.items s)) as [|a t] eqn:E; [done|].
    simpl in Hl. injection Hl as ->.
    destruct Hr as [->|[u ->]]; simpl in *.
    + unfold Sql.delete_inventory_id. simpl. by rewrite Hx, E, Hc.
    + unfold Sql.put_inventory_id_photo. simpl. by rewrite Hx, E, Hc.
Qed.

(** A deletion or photo replacement that does not reach the removal of the
    old file: the disk only gains the upload, and the answer is not 200. *)
Lemma no_cleanup v s (y : parsed) r :
  r = DeleteInventoryId y ∨ (∃ f, r = PutInventoryIdPhoto y f) →
  lookup_parsed v s y = None ∨ replaces_without_file r = true →
  disk_of v (after v r s) = upload_single (request_file r) (disk_of v s) ∧
  status (respond v r s) ≠ 200 ∧
  (lookup_parsed v s y ≠ None → status (respond v r s) = 400).
Proof.
  intros [->|[f ->]] Hno.
  - destruct Hno as [E|?]; [|done].
    destruct (view_unknown v s y (DeleteInventoryId y) E) as [-> ->]; [set_solver|].
    split; [done|]. split; [by destruct (id_ok v y)|done].
  - destruct (view_replace_rejected v s y f) as (_ & _ & Hd & Ho).
    { destruct Hno as [?|Hf]; [by right|left]. by destruct f. }
    split; [done|]. rewrite Ho. split.
    + destruct v, (lookup_parsed _ s y), f; simpl; try done; by destruct (Sql.id_param y).
    + intros Hl. destruct Hno as [?|Hf]; [done|]. destruct f; [done|].
      destruct v; [|done]. by destruct (lookup_parsed InMemory s y).
Qed.

(** C4: a deletion or a photo replacement with a file, addressed to a stored
    item [i], is answered with 200, so removing the old photo file raises no
    error.  With [d] the disk once the upload (if any) is stored: if the
    stored path is null or names no existing file the disk is left as it
    is; if the file exists it is unlinked once and is gone afterwards.  A
    photo replacement without a file is answered with 400, and a request
    under whose route parameter nothing is found with another status than
    200; both leave the disk as it is. *)
Theorem old_photo_removed_once (v : variant) (s : state_of v) (y : parsed) (r : request) :
  r = DeleteInventoryId y ∨ (∃ f, r = PutInventoryIdPhoto y f) →
  let d := upload_single (request_file r) (disk_of v s) in
  let d' := disk_of v (after v r s) in
  match lookup_parsed v s y with
  | Some i =>
      if replaces_without_file r
      then status (respond v r s) = 400 ∧ d' = d
      else
        status (respond v r s) = 200 ∧
        match photo i with
        | Some p =>
            if existsSync d p
            then files d' = files d ∖ {[p]} ∧ unlinks d' = unlinks d ++ [p] ∧
                 existsSync d' p = false
            else d' = d
        | None => d' = d
        end
  | None => status (respond v r s) ≠ 200 ∧ d' = d
  end.
Proof.
  intros Hr d d'.
  destruct (lookup_parsed v s y) as [i|] eqn:E.
  - destruct (replaces_without_file r) eqn:Hbare.
    + destruct (no_cleanup v s y r Hr) as (Hd & _ & Ho); [by right|].
      split; [|done]. apply Ho. by rewrite E.
    + apply lookup_parsed_Some in E as (x & -> & E).
      assert (Hr' : r = DeleteInventoryId x ∨ ∃ u, r = PutInventoryIdPhoto x (Some u)).
      { destruct Hr as [->|[[u|] ->]]; [auto|eauto|done]. }
      destruct (cleanup_route v s x i r E Hr') as (d2 & Hc & Hd & Ho).
      fold d in Hc. fold d' in Hd. subst d2. split; [done|].
      destruct (cleanup_photo_spec (photo i) d) as (d2 & Hc2 & Hspec).
      rewrite Hc in Hc2. injection Hc2 as <-.
      destruct (photo i) as [p|]; [|done].
      destruct (existsSync d p); [|done].
      destruct Hspec as [Hf Hu]. repeat split; [done..|].
      by apply (cleanup_removes p d d').
  - destruct (no_cleanup v s y r Hr) as (Hd & Ho & _); [by left|]. done.
Qed.

Lemma old_photo_removed_once_witness :
  status (respond SqlBacked (DeleteInventoryId 1) (two_items SqlBacked)) = 200 ∧
  files (disk_of SqlBacked (after SqlBacked (DeleteInventoryId 1) (two_items SqlBacked))) =
    files (disk_of SqlBacked (two_items SqlBacked)) ∖ {["/cache/a1"]} ∧
  unlinks (disk_of SqlBacked (after SqlBacked (DeleteInventoryId 1) (two_items SqlBacked))) =
    unlinks (disk_of SqlBacked (two_items SqlBacked)) ++ ["/cache/a1"] ∧
  existsSync (disk_of SqlBacked (after SqlBacked (DeleteInventoryId 1) (two_items SqlBacked)))
    "/cache/a1" = false.
Proof.
  apply (old_photo_removed_once SqlBacked (two_items SqlBacked) 1 (DeleteInventoryId 1)).
  left. reflexivity.
Defined.

(** ** Replacing a photo *)

(** C5, as stated: a photo replacement without a file is answered with 400.
    The in-memory variant looks the item up first and answers 404 when the
    id is unknown. *)
Lemma mem_missing_file_for_unknown_id_is_not_found :
  status (respond InMemory (PutInventoryIdPhoto 7 None) (two_items InMemory)) ≠ 400.
Proof. vm_compute. discriminate. Qed.

(** C5, amended: a photo replacement without a file for a stored id is
    answered with 400; without a file and for an id under which nothing is
    stored the in-memory variant answers 404 and the SQL-backed variant 400;
    with a file and for an id under which nothing is stored the answer is
    404 when the query for the id runs; in these cases the item store is
    unchanged.  Otherwise the answer is 200, the old photo file (if any) is
    gone, the uploaded file is on disk and the item's photo path is the new
    file's.  The route parameter is any result of [parseInt]. *)
Theorem photo_replacement_outcomes (v : variant) (s : state_of v) (y : parsed)
    (f : option upload) :
  reachable v s → fresh_upload (PutInventoryIdPhoto y f) (disk_of v s) →
  let r := PutInventoryIdPhoto y f in
  match lookup_parsed v s y, f with
  | Some i, Some u =>
      status (respond v r s) = 200 ∧
      lookup_parsed v (after v r s) y = Some (set_photo i (Some (path u))) ∧
      existsSync (disk_of v (after v r s)) (path u) = true ∧
      match photo i with
      | Some p => existsSync (disk_of v (after v r s)) p = false
      | None => True
      end
  | Some _, None =>
      status (respond v r s) = 400 ∧ records v (after v r s) = records v s
  | None, Some _ =>
      (id_ok v y = true → status (respond v r s) = 404) ∧
      records v (after v r s) = records v s
  | None, None =>
      status (respond v r s) = match v with InMemory => 404 | SqlBacked => 400 end ∧
      records v (after v r s) = records v s
  end.
Proof.
  intros Hs Hfresh r. pose proof (reachable_consistent v s Hs) as Hok.
  pose proof (ok_nodup v s Hok) as Hnd.
  destruct (lookup_parsed v s y) as [i|] eqn:E, f as [u|].
  - apply lookup_parsed_Some in E as (x & -> & E). subst r.
    pose proof (lookup_id_ok v s x i E) as Hx.
    destruct (lookup_split v s x i E) as (l1 & l2 & Hr & Hi & Hl1).
    destruct (view_replace v s x u l1 i l2 Hnd Hr Hi Hl1 Hx)
      as (d' & Hc & Hr' & _ & Hd & Ho).
    unfold path_resolve in Hr'.
    pose proof (consistent_step v s _ Hok Hfresh) as Hok'.
    assert (Hnew : set_photo i (Some (path u)) ∈
              records v (after v (PutInventoryIdPhoto x (Some u)) s))
      by (rewrite Hr'; set_solver).
    split; [by rewrite Ho|]. split; [|split].
    + by apply (lookup_at v _ x l1 (set_photo i (Some (path u))) l2).
    + by apply (ok_photo_exists _ _ _ (ok_store _ _ Hok') _ (path u) Hnew).
    + destruct (photo i) as [p|]; [|done]. rewrite Hd. by eapply cleanup_removes.
  - destruct (view_replace_rejected v s y None) as (Hr' & _ & _ & Ho); [by left|].
    fold r in Hr', Ho. rewrite Ho. split; [|done]. destruct v; [|done]. by rewrite E.
  - destruct (view_replace_rejected v s y (Some u)) as (Hr' & _ & _ & Ho); [by right|].
    fold r in Hr', Ho. rewrite Ho. split; [|done]. intros Hy.
    destruct v; [by rewrite E|by rewrite Hy].
  - destruct (view_replace_rejected v s y None) as (Hr' & _ & _ & Ho); [by left|].
    fold r in Hr', Ho. rewrite Ho. split; [|done]. destruct v; [|done]. by rewrite E.
Qed.

Lemma photo_replacement_outcomes_witness :
  status (respond SqlBacked (PutInventoryIdPhoto 1 (Some (Upload "/cache/c3")))
            (two_items SqlBacked)) = 200 ∧
  lookup_parsed SqlBacked
    (after SqlBacked (PutInventoryIdPhoto 1 (Some (Upload "/cache/c3"))) (two_items SqlBacked)) 1
    = Some (Item 1 (JStr "Laptop") (JStr "16GB RAM") (Some "/cache/c3")) ∧
  existsSync (disk_of SqlBacked
    (after SqlBacked (PutInventoryIdPhoto 1 (Some (Upload "/cache/c3"))) (two_items SqlBacked)))
    "/cache/c3" = true ∧
  existsSync (disk_of SqlBacked
    (after SqlBacked (PutInventoryIdPhoto 1 (Some (Upload "/cache/c3"))) (two_items SqlBacked)))
    "/cache/a1" = false.
Proof.
  apply (photo_replacement_outcomes SqlBacked (two_items SqlBacked) 1
           (Some (Upload "/cache/c3"))).
  - apply two_items_reachable.
  - split; [done|]. simpl. set_solver.
Defined.

(** ** Registration without a name *)

(** The answer to a registration depends on the store only through the id
    counter. *)
Lemma register_response v s s' nm ds f :
  counter v s = counter v s' →
  respond v (PostRegister nm ds f) s = respond v (PostRegister nm ds f) s'.
Proof.
  intros Hc. unfold respond. destruct v; simpl in *.
  - unfold Mem.post_register. simpl. rewrite Hc. by destruct (truthy nm).
  - unfold Sql.post_register, Sql.insert_returning, Sql.insert_ok. simpl. rewrite Hc.
    destruct (truthy nm); [|done]. simpl. by destruct (_ && _).
Qed.

(** C6: a registration whose name is missing or empty is answered with 400,
    stores no record and leaves the id counter alone, so that any later
    registration is answered as if the rejected one had not been made. *)
Theorem register_without_name_rejected (v : variant) (s : state_of v)
    (nm ds : jsval) (f : option upload) :
  truthy nm = false →
  let s' := after v (PostRegister nm ds f) s in
  status (respond v (PostRegister nm ds f) s) = 400 ∧
  records v s' = records v s ∧
  counter v s' = counter v s ∧
  ∀ nm' ds' f',
    respond v (PostRegister nm' ds' f') s' = respond v (PostRegister nm' ds' f') s.
Proof.
  intros Hnm s'.
  destruct (view_register_rejected v s nm ds f Hnm) as (Hr & Hc & _ & Ho).
  fold s' in Hr, Hc. rewrite Ho. repeat split; [done..|].
  intros nm' ds' f'. by apply register_response.
Qed.

Lemma register_without_name_rejected_witness :
  let s := two_items SqlBacked in
  let s' := after SqlBacked (PostRegister (JStr "") (JStr "no name") None) s in
  status (respond SqlBacked (PostRegister (JStr "") (JStr "no name") None) s) = 400 ∧
  records SqlBacked s' = records SqlBacked s ∧
  counter SqlBacked s' = counter SqlBacked s ∧
  ∀ nm' ds' f',
    respond SqlBacked (PostRegister nm' ds' f') s' =
    respond SqlBacked (PostRegister nm' ds' f') s.
Proof.
  apply (register_without_name_rejected SqlBacked (two_items SqlBacked)
           (JStr "") (JStr "no name") None).
  reflexivity.
Defined.

(** ** Search by id *)

(** C7, as stated: searching a stored item with [includePhoto] set returns
    its description with the photo-link note appended.  The item with id 2
    has no photo and its description comes back without the note. *)
Lemma search_without_photo_adds_no_note :
  ¬ ∃ i, lookup_item InMemory (two_items InMemory) 2 = Some i ∧
         response_description (respond InMemory (PostSearch 2 (JStr "on")) (two_items InMemory))
         = Some (js_append (description i) (photo_note 2)).
Proof.
  intros (i & Hi & Hd). vm_compute in Hi. injection Hi as <-.
  vm_compute in Hd. discriminate.
Qed.

(** C7, amended: searching a stored item with [includePhoto] set to ['on']
    returns the item with the photo-link note appended to its description
    when the item has a photo, and the item as stored when it has none; in
    both cases the state, and with it the stored description, is unchanged. *)
Theorem search_note_in_response_only (v : variant) (s : state_of v) (x : Z) (i : item) :
  lookup_item v s x = Some i →
  handle v (PostSearch x (JStr "on")) s =
    (s, Response 200 (BItem
          (if photo_truthy (photo i)
           then set_description i (JStr (js_to_string (description i) +:+ photo_note x))
           else i))).
Proof.
  intros Hl. rewrite (view_search v s x (JStr "on") i Hl).
  apply lookup_elem_of in Hl as [_ <-]. unfold search_output. simpl.
  by destruct (photo_truthy (photo i)).
Qed.

Lemma search_note_in_response_only_witness :
  handle SqlBacked (PostSearch 1 (JStr "on")) (two_items SqlBacked) =
    (two_items SqlBacked,
     Response 200 (BItem (Item 1 (JStr "Laptop")
                            (JStr "16GB RAM [Photo Link: /inventory/1/photo]")
                            (Some "/cache/a1")))).
Proof.
  apply (search_note_in_response_only SqlBacked (two_items SqlBacked) 1
           (Item 1 (JStr "Laptop") (JStr "16GB RAM") (Some "/cache/a1"))).
  reflexivity.
Defined.

(** ** Photo of a deleted item *)

(** C8: once an item has been deleted, asking for its photo is answered with
    404, whether or not it had a photo on disk. *)
Theorem photo_of_deleted_item_not_found (v : variant) (s : state_of v) (x : Z) :
  reachable v s →
  status (respond v (DeleteInventoryId x) s) = 200 →
  status (respond v (GetInventoryIdPhoto x) (after v (DeleteInventoryId x) s)) = 404.
Proof.
  intros Hs Hdel. pose proof (reachable_consistent v s Hs) as Hok.
  pose proof (ok_nodup v s Hok) as Hnd.
  destruct (lookup_item v s x) as [i|] eqn:E.
  - pose proof (lookup_id_ok v s x i E) as Hx.
    destruct (lookup_split v s x i E) as (l1 & l2 & Hr & Hi & Hl1).
    destruct (view_delete v s x l1 i l2 Hnd Hr Hi Hl1 Hx) as (d' & _ & Hr' & _).
    rewrite Hr in Hnd. apply NoDup_ids_middle in Hnd as [H1 H2].
    assert (Hgone : lookup_item v (after v (DeleteInventoryId x) s) x = None).
    { apply lookup_off. rewrite Hr', <- Hi. intros j [?|?]%elem_of_app; auto. }
    destruct (view_unknown v _ x (GetInventoryIdPhoto x) Hgone) as [_ ->]; [set_solver|].
    by rewrite Hx.
  - destruct (view_unknown v s x (DeleteInventoryId x) E) as [_ Ho]; [set_solver|].
    rewrite Ho in Hdel. by destruct (id_ok v x).
Qed.

Lemma photo_of_deleted_item_not_found_witness :
  status (respond InMemory (GetInventoryIdPhoto 1)
            (after InMemory (DeleteInventoryId 1) (two_items InMemory))) = 404.
Proof.
  apply (photo_of_deleted_item_not_found InMemory (two_items InMemory) 1).
  - apply two_items_reachable.
  - reflexivity.
Defined.

(** ** What the read and write routes return *)

Lemma stored_record_id v n nm ds f : id (stored_record v n nm ds f) = n.
Proof. by destruct v. Qed.

Lemma stored_record_photo v n nm ds f : photo (stored_record v n nm ds f) = photo_path_of f.
Proof. by destruct v. Qed.

(** A stored photo path is never the empty string, so the link is computed
    exactly for the items that have a photo. *)
Lemma photo_url_of_consistent v s i :
  consistent v s → i ∈ records v s →
  photo_url_of i = match photo i with Some _ => Some (photo_link (id i)) | None => None end.
Proof.
  intros Hok Hi. unfold photo_url_of. destruct (photo i) as [p|] eqn:Hp; [|done].
  apply (ok_photo_exists _ _ _ (ok_store _ _ Hok) i p Hi) in Hp. by rewrite (existsSync_truthy _ _ Hp).
Qed.

(** The list route answers with every stored record and its link. *)
Lemma list_route_links v s :
  consistent v s →
  ∃ l, respond v GetInventory s = Response 200 (BList l) ∧
    ∀ it u, (it, u) ∈ l ↔
      it ∈ records v s ∧
      u = match photo it with Some _ => Some (photo_link (id it)) | None => None end.
Proof.
  intros Hok.
  assert (Hall : ∀ rows, rows ≡ₚ records v s → ∀ it u,
            (it, u) ∈ with_link <$> rows ↔
            it ∈ records v s ∧
            u = match photo it with Some _ => Some (photo_link (id it)) | None => None end).
  { intros rows Hp it u. rewrite list_elem_of_fmap. unfold with_link. split.
    - intros (j & [= -> ->] & Hj). rewrite Hp in Hj. split; [done|].
      by apply (photo_url_of_consistent v s).
    - intros [Hi ->]. exists it. rewrite Hp. split; [|done].
      by rewrite (photo_url_of_consistent v s it Hok Hi). }
  destruct v; eexists; (split; [reflexivity|]); apply Hall; [done|].
  apply merge_sort_Permutation.
Qed.

Lemma register_id_ok v s nm ds f :
  truthy nm = true → db_refuses v (PostRegister nm ds f) s = false →
  id_ok v (counter v s) = true.
Proof.
  destruct v; simpl; [done|]. intros -> Href. simpl in Href.
  apply negb_false_iff in Href. unfold Sql.insert_ok in Href.
  apply andb_true_iff in Href as [_ ->]. done.
Qed.

Lemma lookup_registered v s nm ds f :
  consistent v s → truthy nm = true → db_refuses v (PostRegister nm ds f) s = false →
  let it := stored_record v (counter v s) nm ds f in
  lookup_item v (after v (PostRegister nm ds f) s) (id it) = Some it.
Proof.
  intros Hok Hnm Href it. destruct (view_register v s nm ds f Hnm Href) as (Hr & _).
  assert (Hfree : ∀ j, j ∈ records v s → id j ≠ id it).
  { intros j Hj. apply (ok_ids_below _ _ _ (ok_store _ _ Hok)) in Hj.
    unfold it. rewrite stored_record_id. lia. }
  assert (Hx : id_ok v (id it) = true).
  { unfold it. rewrite stored_record_id. by eapply register_id_ok. }
  rewrite lookup_find by done. rewrite Hr, find_app_new by done.
  rewrite (proj2 (find_None (id it) (records v s)) Hfree). by rewrite decide_True.
Qed.

Lemma lookup_updated v s x nm ds i :
  consistent v s → lookup_item v s x = Some i →
  db_refuses v (PutInventoryId x nm ds) s = false →
  respond v (PutInventoryId x nm ds) s = Response 200 (BItem (updated_record v nm ds i)) ∧
  lookup_item v (after v (PutInventoryId x nm ds) s) x = Some (updated_record v nm ds i).
Proof.
  intros Hok E Href. destruct (lookup_split v s x i E) as (l1 & l2 & Hr & Hi & Hl1).
  destruct (view_update v s x nm ds l1 i l2 (ok_nodup v s Hok) Hr Hi Hl1 Href)
    as (Hr' & _ & _ & Ho).
  split; [done|].
  apply (lookup_at v _ x l1 (updated_record v nm ds i) l2);
    [by apply (lookup_id_ok v s x i)|done| |done].
  by rewrite updated_record_id.
Qed.

(** The kind of body each route answers with. *)
Lemma respond_shape v s r :
  consistent v s →
  match r with
  | GetInventory => ∃ l, payload (respond v r s) = BList l
  | GetInventoryId _ =>
      (∃ i u, payload (respond v r s) = BItemLink i u) ∨
      (∃ t, payload (respond v r s) = BText t)
  | PostSearch _ _ =>
      (∃ i, payload (respond v r s) = BItem i) ∨ (∃ t, payload (respond v r s) = BText t)
  | PostRegister _ _ _ | PutInventoryId _ _ _ =>
      (∃ it, payload (respond v r s) = BItem it ∧
             lookup_item v (after v r s) (id it) = Some it) ∨
      (∃ t, payload (respond v r s) = BText t)
  | _ => (∃ t, payload (respond v r s) = BText t) ∨ (∃ p, payload (respond v r s) = BFile p)
  end.
Proof.
  intros Hok. pose proof (ok_nodup v s Hok) as Hnd.
  assert (Herr : ∀ y, ∃ t, payload (if id_ok v y then not_found else database_error) = BText t).
  { intros y. destruct (id_ok v y); by eexists. }
  destruct (db_refuses v r s) eqn:Href.
  { destruct (view_refused v s r Href) as (_ & _ & _ & Ho). rewrite Ho.
    destruct r; try (right; by eexists); try (left; by eexists). by destruct v. }
  destruct r as [nm ds f| |x|x nm ds|x|x f|x|x p].
  - destruct (truthy nm) eqn:Hnm.
    + left. destruct (view_register v s nm ds f Hnm Href) as (_ & _ & _ & Ho).
      eexists. rewrite Ho. split; [done|]. by apply lookup_registered.
    + right. destruct (view_register_rejected v s nm ds f Hnm) as (_ & _ & _ & ->).
      by eexists.
  - destruct v; by eexists.
  - by_lookup v s x i E.
    + left. unfold respond. rewrite (view_get v s x i E). by do 2 eexists.
    + right. by destruct (view_unknown v s x (GetInventoryId x) E) as [_ ->]; [set_solver|].
  - by_lookup v s x i E.
    + left. destruct (lookup_updated v s x nm ds i Hok E Href) as [Ho Hl].
      eexists. rewrite Ho. split; [done|]. simpl. by rewrite updated_record_id,
        (proj2 (lookup_elem_of v s x i E)).
    + right. by destruct (view_unknown v s x (PutInventoryId x nm ds) E) as [_ ->]; [eauto|].
  - by_lookup v s x i E.
    + unfold respond. rewrite (view_get_photo v s x i E). simpl.
      destruct (photo i) as [p|]; [|left; by eexists].
      destruct (_ && _); [right|left]; by eexists.
    + left. by destruct (view_unknown v s x (GetInventoryIdPhoto x) E) as [_ ->]; [set_solver|].
  - left. destruct f as [u|]; by_lookup v s x i E.
    + destruct (lookup_split v s x i E) as (l1 & l2 & Hr & Hi & Hl1).
      destruct (view_replace v s x u l1 i l2 Hnd Hr Hi Hl1 (lookup_id_ok v s x i E))
        as (d' & _ & _ & _ & _ & ->).
      by eexists.
    + destruct (view_replace_rejected v s x (Some u)) as (_ & _ & _ & ->); [by right|].
      destruct v; [rewrite E; by eexists|apply Herr].
    + destruct (view_replace_rejected v s x None) as (_ & _ & _ & ->); [by left|].
      destruct v; [cbn [lookup_parsed]; rewrite E|]; by eexists.
    + destruct (view_replace_rejected v s x None) as (_ & _ & _ & ->); [by left|].
      destruct v; [rewrite E|]; by eexists.
  - left. by_lookup v s x i E.
    + destruct (lookup_split v s x i E) as (l1 & l2 & Hr & Hi & Hl1).
      destruct (view_delete v s x l1 i l2 Hnd Hr Hi Hl1 (lookup_id_ok v s x i E))
        as (d' & _ & _ & _ & _ & ->).
      by eexists.
    + by destruct (view_unknown v s x (DeleteInventoryId x) E) as [_ ->]; [set_solver|].
  - by_lookup v s x i E.
    + left. unfold respond. rewrite (view_search v s x p i E). by eexists.
    + right. by destruct (view_unknown v s x (PostSearch x p) E) as [_ ->]; [eauto|].
Qed.

(** C9: in a reachable state, get-by-id answers with the stored record and a
    [photo_url] that is the text [/inventory/<id>/photo] when the stored
    photo path is non-null and [null] otherwise; a registration that the
    store takes stores the name and description it was given, with a photo
    path iff a file was uploaded, under the id it returns; and only a field
    update or the deletion of the item changes the name and description
    found under an id. *)
Theorem get_by_id_returns_stored_item (v : variant) (s : state_of v) :
  reachable v s →
  (∀ x i, lookup_item v s x = Some i →
     respond v (GetInventoryId x) s =
       Response 200 (BItemLink i
         match photo i with
         | Some _ => Some ("/inventory/" +:+ pretty x +:+ "/photo")
         | None => None
         end)) ∧
  (∀ nm ds f, truthy nm = true → db_refuses v (PostRegister nm ds f) s = false →
     let it := stored_record v (counter v s) nm ds f in
     respond v (PostRegister nm ds f) s = Response 201 (BItem it) ∧
     lookup_item v (after v (PostRegister nm ds f) s) (id it) = Some it ∧
     (∀ a, nm = JStr a → name it = JStr a) ∧
     (∀ b, ds = JStr b → description it = JStr b) ∧
     (ds = JUndefined → description it = JStr "") ∧
     (photo it = None ↔ f = None)) ∧
  (∀ r (x : Z) i, fresh_upload r (disk_of v s) → lookup_item v s x = Some i →
     (∀ nm ds, r ≠ PutInventoryId x nm ds) → r ≠ DeleteInventoryId x →
     ∃ i', lookup_item v (after v r s) x = Some i' ∧
           name i' = name i ∧ description i' = description i).
Proof.
  intros Hs. pose proof (reachable_consistent v s Hs) as Hok.
  pose proof (ok_nodup v s Hok) as Hnd. split; [|split].
  - intros x i E. unfold respond. rewrite (view_get v s x i E). simpl.
    destruct (lookup_elem_of v s x i E) as [Hi <-].
    by rewrite (photo_url_of_consistent v s i Hok Hi).
  - intros nm ds f Hnm Href it. repeat split.
    + by destruct (view_register v s nm ds f Hnm Href) as (_ & _ & _ & ->).
    + by apply lookup_registered.
    + intros a ->. by destruct v.
    + intros b ->. destruct v; simpl; unfold js_or; simpl;
        destruct (String.eqb b "") eqn:Hb; simpl; try done;
        apply String.eqb_eq in Hb; by subst.
    + intros ->. by destruct v.
    + unfold it. rewrite stored_record_photo. by destruct f.
    + unfold it. rewrite stored_record_photo. by intros ->.
  - intros r x i Hfresh E Hupd Hdel.
    destruct (lookup_elem_of v s x i E) as [Hi Hx]. subst x.
    pose proof (consistent_step v s r Hok Hfresh) as Hok'.
    destruct (record_kept v s r i Hnd Hi) as [->|(j & Hj & Hid & _ & [Hnd'|Hup])]; [done| |].
    + exists j. split; [|done]. rewrite <- Hid.
      apply elem_of_lookup; [by apply (ok_ids_range _ _ Hok')|by apply ok_nodup|done].
    + destruct Hup as (nm & ds & ->). by destruct (Hupd nm ds).
Qed.

Lemma get_by_id_returns_stored_item_witness :
  respond InMemory (GetInventoryId 1) (two_items InMemory) =
    Response 200 (BItemLink (Item 1 (JStr "Laptop") (JStr "16GB RAM") (Some "/cache/a1"))
                            (Some "/inventory/1/photo")) ∧
  respond InMemory (GetInventoryId 2) (two_items InMemory) =
    Response 200 (BItemLink (Item 2 (JStr "Phone") (JStr "") None) None) ∧
  respond SqlBacked (PostRegister (JStr "Desk") JUndefined None) (two_items SqlBacked) =
    Response 201 (BItem (Item 3 (JStr "Desk") (JStr "") None)).
Proof.
  destruct (get_by_id_returns_stored_item InMemory (two_items InMemory)
              (two_items_reachable InMemory)) as (Hget & _).
  destruct (get_by_id_returns_stored_item SqlBacked (two_items SqlBacked)
              (two_items_reachable SqlBacked)) as (_ & Hreg & _).
  split; [|split].
  - apply (Hget 1 (Item 1 (JStr "Laptop") (JStr "16GB RAM") (Some "/cache/a1"))). reflexivity.
  - apply (Hget 2 (Item 2 (JStr "Phone") (JStr "") None)). reflexivity.
  - apply (Hreg (JStr "Desk") JUndefined None); reflexivity.
Defined.

(** A registration is answered with 201, and a field update with 200, only
    when it passes the handler's checks and no query throws. *)
Lemma register_201 v s nm ds f :
  status (respond v (PostRegister nm ds f) s) = 201 →
  truthy nm = true ∧ db_refuses v (PostRegister nm ds f) s = false.
Proof.
  intros Hst. destruct (truthy nm) eqn:Hnm.
  - split; [done|]. destruct (db_refuses v (PostRegister nm ds f) s) eqn:Href; [|done].
    destruct (view_refused v s _ Href) as (_ & _ & _ & Ho). by rewrite Ho in Hst.
  - destruct (view_register_rejected v s nm ds f Hnm) as (_ & _ & _ & Ho).
    by rewrite Ho in Hst.
Qed.

Lemma update_200 v s (x : Z) nm ds :
  status (respond v (PutInventoryId x nm ds) s) = 200 →
  lookup_item v s x ≠ None ∧ db_refuses v (PutInventoryId x nm ds) s = false.
Proof.
  intros Hst. split.
  - intros E. destruct (view_unknown v s x (PutInventoryId x nm ds) E) as [_ Ho]; [eauto|].
    rewrite Ho in Hst. by destruct (id_ok v x).
  - destruct (db_refuses v (PutInventoryId x nm ds) s) eqn:Href; [|done].
    destruct (view_refused v s _ Href) as (_ & _ & _ & Ho). by rewrite Ho in Hst.
Qed.

(** C10: in a reachable state a successful registration and a successful
    field update, that is, one that passes the handler's checks and whose
    query the database takes, answer with the record as it is stored
    afterwards, whose photo field is the path of the uploaded file (or the
    path stored before the update) and which has no [photo_url]; no other
    registration is answered with 201 and no other field update with 200; a
    body with a [photo_url] comes only from the list and get-by-id routes,
    and a single-item body that is not the stored record only from the
    search route. *)
Theorem write_routes_return_stored_record (v : variant) (s : state_of v) :
  reachable v s →
  (∀ nm ds f, truthy nm = true → db_refuses v (PostRegister nm ds f) s = false →
     ∃ it, respond v (PostRegister nm ds f) s = Response 201 (BItem it) ∧
           lookup_item v (after v (PostRegister nm ds f) s) (id it) = Some it ∧
           photo it = photo_path_of f ∧
           ∀ u, f = Some u → path u ≠ "" →
                existsSync (disk_of v (after v (PostRegister nm ds f) s)) (path u) = true) ∧
  (∀ x nm ds i, lookup_item v s x = Some i →
     db_refuses v (PutInventoryId x nm ds) s = false →
     ∃ it, respond v (PutInventoryId x nm ds) s = Response 200 (BItem it) ∧
           lookup_item v (after v (PutInventoryId x nm ds) s) x = Some it ∧
           photo it = photo i) ∧
  (∀ nm ds f, status (respond v (PostRegister nm ds f) s) = 201 →
     truthy nm = true ∧ db_refuses v (PostRegister nm ds f) s = false) ∧
  (∀ (x : Z) nm ds, status (respond v (PutInventoryId x nm ds) s) = 200 →
     lookup_item v s x ≠ None ∧ db_refuses v (PutInventoryId x nm ds) s = false) ∧
  (∀ r it u, payload (respond v r s) = BItemLink it u → ∃ x, r = GetInventoryId x) ∧
  (∀ r l, payload (respond v r s) = BList l → r = GetInventory) ∧
  (∀ r it, payload (respond v r s) = BItem it →
     (∃ x p, r = PostSearch x p) ∨ lookup_item v (after v r s) (id it) = Some it).
Proof.
  intros Hs. pose proof (reachable_consistent v s Hs) as Hok.
  split; [|split; [|split; [|split; [|split; [|split]]]]].
  - intros nm ds f Hnm Href. exists (stored_record v (counter v s) nm ds f).
    destruct (view_register v s nm ds f Hnm Href) as (_ & _ & Hd & Ho).
    split; [done|]. split; [by apply lookup_registered|].
    split; [apply stored_record_photo|].
    intros u -> Hu. rewrite Hd. by apply upload_exists.
  - intros x nm ds i E Href. exists (updated_record v nm ds i).
    destruct (lookup_updated v s x nm ds i Hok E Href) as [Ho Hl].
    split; [done|]. split; [done|]. apply updated_record_photo.
  - intros nm ds f. apply register_201.
  - intros x nm ds. apply update_200.
  - intros r it u Hp. pose proof (respond_shape v s r Hok) as Hsh.
    destruct r; try (by eexists);
      split_shape Hp; congruence.
  - intros r l Hp. pose proof (respond_shape v s r Hok) as Hsh.
    destruct r; try done;
      split_shape Hp; congruence.
  - intros r it Hp. pose proof (respond_shape v s r Hok) as Hsh.
    destruct r; try (by left; eauto);
      split_shape Hp; try congruence; right; congruence.
Qed.

Lemma write_routes_return_stored_record_witness :
  ∃ it, respond SqlBacked (PutInventoryId 1 JUndefined (JStr "32GB")) (two_items SqlBacked)
          = Response 200 (BItem it) ∧
        lookup_item SqlBacked
          (after SqlBacked (PutInventoryId 1 JUndefined (JStr "32GB")) (two_items SqlBacked)) 1
          = Some it ∧
        photo it = Some "/cache/a1".
Proof.
  destruct (write_routes_return_stored_record SqlBacked (two_items SqlBacked)
              (two_items_reachable SqlBacked)) as (_ & Hupd & _).
  apply (Hupd 1 JUndefined (JStr "32GB")
           (Item 1 (JStr "Laptop") (JStr "16GB RAM") (Some "/cache/a1"))); reflexivity.
Defined.


(** * Further properties of the routes *)

(** ** How a request changes the state *)

(** A property of records that registration establishes and that field
    updates and photo replacements keep holds of every stored record. *)
Lemma items_invariant v (P : item → Prop) s :
  (∀ n nm ds f, truthy nm = true → P (stored_record v n nm ds f)) →
  (∀ nm ds i, P i → P (updated_record v nm ds i)) →
  (∀ i p, P i → P (set_photo i p)) →
  reachable v s → ∀ i, i ∈ records v s → P i.
Proof.
  intros Hreg Hupd Hph. induction 1 as [d|s r Hs IH Hfresh].
  - destruct v; simpl; set_solver.
  - pose proof (ok_nodup v s (reachable_consistent v s Hs)) as Hnd.
    destruct (store_change v s r Hnd)
      as [[-> _]|[(nm & ds & f & -> & Hnm & -> & _)
         |[(x & l1 & a & a' & l2 & _ & Hr & _ & _ & -> & _ & Ha')
          |(x & l1 & a & l2 & _ & Hr & _ & _ & -> & _)]]]; [done|..].
    + intros i [Hi| ->%list_elem_of_singleton]%elem_of_app; auto.
    + rewrite Hr in IH.
      intros i [Hi|[->|Hi]%elem_of_cons]%elem_of_app; [apply IH; set_solver| |apply IH; set_solver].
      assert (P a) by (apply IH; set_solver).
      destruct Ha' as [(nm & ds & _ & ->)|(u & _ & ->)]; auto.
    + rewrite Hr in IH. intros i Hi. apply IH. set_solver.
Qed.

(** ** Ids *)

Lemma ids_increasing_step v s r :
  consistent v s → ids_increasing (records v s) → ids_increasing (records v (after v r s)).
Proof.
  intros Hok Hinc. unfold ids_increasing in *.
  destruct (store_change v s r (ok_ids_nodup _ _ _ (ok_store _ _ Hok)))
    as [[-> _]|[(nm & ds & f & -> & Hnm & -> & _)
       |[(x & l1 & a & a' & l2 & _ & Hr & Hx & _ & -> & _ & Ha')
        |(x & l1 & a & l2 & _ & Hr & _ & _ & -> & _)]]]; [done|..].
  - rewrite fmap_app. apply StronglySorted_app_2; [|done|repeat constructor].
    intros y z (j & -> & Hj)%list_elem_of_fmap ->%list_elem_of_singleton.
    simpl. rewrite stored_record_id. by apply (ok_ids_below _ _ _ (ok_store _ _ Hok)).
  - rewrite Hr in Hinc. revert Hinc.
    assert (id a' = id a) as Hid.
    { destruct Ha' as [(nm & ds & _ & ->)|(u & _ & ->)]; [apply updated_record_id|done]. }
    by rewrite !fmap_app, !fmap_cons, Hid.
  - rewrite Hr in Hinc. revert Hinc.
    rewrite !fmap_app, fmap_cons, !StronglySorted_app, StronglySorted_cons. set_solver.
Qed.




Lemma same_id_same_record (l : list item) a b :
  NoDup (id <$> l) → a ∈ l → b ∈ l → id a = id b → a = b.
Proof.
  intros Hnd (l1 & l2 & ->)%list_elem_of_split Hb Hid.
  apply NoDup_ids_middle in Hnd as [H1 H2].
  apply elem_of_app in Hb as [Hb|[->|Hb]%elem_of_cons]; [|done|].
  - by destruct (H1 b Hb).
  - by destruct (H2 b Hb).
Qed.

Global Instance id_le_transitive : Transitive Sql.id_le.
Proof. unfold Sql.id_le. intros a b c. lia. Qed.

Global Instance id_le_total : Total Sql.id_le.
Proof. unfold Sql.id_le. intros a b. lia. Qed.

Lemma ids_increasing_id_le l : ids_increasing l → StronglySorted Sql.id_le l.
Proof.
  unfold ids_increasing. induction l as [|a l IH]; [constructor|].
  rewrite fmap_cons, !StronglySorted_cons, !Forall_forall.
  intros [Ha Hl]. split; [|by apply IH].
  intros b Hb. unfold Sql.id_le. apply Z.lt_le_incl, Ha. by apply list_elem_of_fmap_2.
Qed.

(** [ORDER BY id ASC] returns a table whose rows are in id order as it is. *)
Lemma select_order_by_id_sorted l :
  NoDup (id <$> l) → ids_increasing l → Sql.select_order_by_id l = l.
Proof.
  intros Hnd Hinc. unfold Sql.select_order_by_id.
  apply (StronglySorted_unique_strong Sql.id_le).
  - intros a b Ha Hb Hab Hba. rewrite merge_sort_Permutation in Ha.
    apply (same_id_same_record l); [done..|]. unfold Sql.id_le in *. lia.
  - apply StronglySorted_merge_sort; apply _.
  - by apply ids_increasing_id_le.
  - apply merge_sort_Permutation.
Qed.

(** X2: in a reachable state the list route of either variant answers with
    the stored records in store order, which is ascending id order, each
    with the link to its photo when it has one and [null] otherwise. *)
Theorem inventory_listed_in_id_order (v : variant) (s : state_of v) :
  reachable v s →
  respond v GetInventory s =
    Response 200 (BList ((λ i, (i, match photo i with
                                   | Some _ => Some (photo_link (id i))
                                   | None => None
                                   end)) <$> records v s)) ∧
  ids_increasing (records v s).
Proof.
  intros Hs. pose proof (reachable_consistent v s Hs) as Hok.
  assert (Hinc : ids_increasing (records v s)).
  { induction Hs as [d|s r Hs IH Hfresh]; [destruct v; constructor|].
    apply ids_increasing_step; [by apply reachable_consistent|].
    by apply IH, reachable_consistent. }
  split; [|done].
  assert (Hlinks : with_link <$> records v s =
            (λ i, (i, match photo i with
                      | Some _ => Some (photo_link (id i))
                      | None => None
                      end)) <$> records v s).
  { apply list_fmap_ext. intros k i Hi. unfold with_link.
    by rewrite (photo_url_of_consistent v s i Hok (list_elem_of_lookup_2 _ _ _ Hi)). }
  rewrite <- Hlinks. destruct v; [done|].
  pose proof (select_order_by_id_sorted _ (ok_ids_nodup _ _ _ (ok_store _ _ Hok)) Hinc) as Hsort.
  unfold respond. simpl in *. unfold Sql.get_inventory. by rewrite Hsort.
Qed.

Lemma inventory_listed_in_id_order_witness :
  respond SqlBacked GetInventory (two_items SqlBacked) =
    Response 200 (BList
      [ (Item 1 (JStr "Laptop") (JStr "16GB RAM") (Some "/cache/a1"), Some "/inventory/1/photo");
        (Item 2 (JStr "Phone") (JStr "") None, None) ]) ∧
  ids_increasing (records SqlBacked (two_items SqlBacked)).
Proof.
  apply (inventory_listed_in_id_order SqlBacked (two_items SqlBacked)).
  apply two_items_reachable.
Defined.

(** The id counter moves only on a registration that is answered with 201. *)
Lemma counter_step v s r :
  counter v (after v r s) =
  counter v s + (if decide (status (respond v r s) = 201) then 1 else 0).
Proof.
  unfold after, respond. destruct v, r; simpl;
    unfold Mem.post_register, Mem.get_inventory, Mem.get_inventory_id, Mem.put_inventory_id,
      Mem.get_inventory_id_photo, Mem.put_inventory_id_photo, Mem.delete_inventory_id,
      Mem.post_search, Sql.post_register, Sql.insert_returning, Sql.get_inventory,
      Sql.get_inventory_id, Sql.put_inventory_id, Sql.get_inventory_id_photo,
      Sql.put_inventory_id_photo, Sql.delete_inventory_id, Sql.post_search;
    simpl; repeat case_match; simpl in *; simplify_eq; simpl; lia.
Qed.

(** X3: after any sequence of requests the id counter has advanced by the
    number of answers with status 201, that is, of registrations that were
    stored: registrations turned down (400) or refused by the database
    (500), deletions and all other requests neither use up nor release an
    id. *)
Theorem counter_counts_registrations (v : variant) (rs : list request) (s : state_of v) :
  counter v (final v rs s) =
  counter v s + Z.of_nat (length (filter (λ o, status o = 201) (responses v rs s))).
Proof.
  revert s. induction rs as [|r rs IH]; intros s; simpl; [lia|].
  rewrite IH, counter_step, filter_cons.
  destruct (decide (status (respond v r s) = 201)); simpl length; lia.
Qed.

(** ** Unknown ids and status codes *)

Lemma request_target_param r (x : Z) :
  request_target r = Some x → request_param r = Some (PInt x).
Proof.
  unfold request_target. destruct (request_param r) as [[z|]|]; [|done..].
  by intros [= ->].
Qed.

Lemma unknown_target v s y r :
  lookup_parsed v s y = None → request_param r = Some y → replaces_without_file r = false →
  respond v r s = (if id_ok v y then not_found else database_error) ∧
  records v (after v r s) = records v s ∧
  counter v (after v r s) = counter v s ∧
  disk_of v (after v r s) = upload_single (request_file r) (disk_of v s).
Proof.
  intros E Ht Hf.
  assert (Hstill : after v r s = s → request_file r = None →
            records v (after v r s) = records v s ∧
            counter v (after v r s) = counter v s ∧
            disk_of v (after v r s) = upload_single (request_file r) (disk_of v s)).
  { by intros -> ->. }
  destruct r as [nm ds f| |z|z nm ds|z|z [u|]|z|z p]; simpl in Ht, Hf; try done;
    injection Ht as ->.
  - destruct (view_unknown v s y (GetInventoryId y) E) as [? ->]; [set_solver|auto].
  - destruct (view_unknown v s y (PutInventoryId y nm ds) E) as [? ->]; [eauto|auto].
  - destruct (view_unknown v s y (GetInventoryIdPhoto y) E) as [? ->]; [set_solver|auto].
  - destruct (view_replace_rejected v s y (Some u)) as (? & ? & ? & ->); [by right|].
    split; [|done]. destruct v; [|done]. by rewrite E.
  - destruct (view_unknown v s y (DeleteInventoryId y) E) as [? ->]; [set_solver|auto].
  - destruct (view_unknown v s y (PostSearch y p) E) as [? ->]; [eauto|auto].
Qed.

(** X4: in any state of either variant, a request whose route parameter is
    an id under which nothing is stored, or not a number, changes neither
    the records nor the id counter, and the disk only gains the uploaded
    file, if any.  It is answered with 404 when the query for the id runs,
    and with 500 when the database refuses the id.  A photo replacement
    without a file, answered before or after the lookup, is excluded. *)
Theorem unknown_id_not_found (v : variant) (s : state_of v) (y : parsed) (r : request) :
  lookup_parsed v s y = None → request_param r = Some y → replaces_without_file r = false →
  status (respond v r s) = (if id_ok v y then 404 else 500) ∧
  records v (after v r s) = records v s ∧
  counter v (after v r s) = counter v s ∧
  disk_of v (after v r s) = upload_single (request_file r) (disk_of v s).
Proof.
  intros E Ht Hf. destruct (unknown_target v s y r E Ht Hf) as (-> & ? & ? & ?).
  by destruct (id_ok v y).
Qed.

Lemma unknown_id_not_found_witness :
  (status (respond SqlBacked (PutInventoryIdPhoto 7 (Some (Upload "/cache/z9")))
             (two_items SqlBacked)) = 404 ∧
   records SqlBacked
     (after SqlBacked (PutInventoryIdPhoto 7 (Some (Upload "/cache/z9"))) (two_items SqlBacked))
     = records SqlBacked (two_items SqlBacked) ∧
   counter SqlBacked
     (after SqlBacked (PutInventoryIdPhoto 7 (Some (Upload "/cache/z9"))) (two_items SqlBacked))
     = counter SqlBacked (two_items SqlBacked) ∧
   disk_of SqlBacked
     (after SqlBacked (PutInventoryIdPhoto 7 (Some (Upload "/cache/z9"))) (two_items SqlBacked))
     = upload_single (Some (Upload "/cache/z9")) (disk_of SqlBacked (two_items SqlBacked))) ∧
  (status (respond SqlBacked (GetInventoryId 100000000000000000000) (two_items SqlBacked))
     = 500 ∧
   records SqlBacked (after SqlBacked (GetInventoryId 100000000000000000000)
                        (two_items SqlBacked))
     = records SqlBacked (two_items SqlBacked) ∧
   counter SqlBacked (after SqlBacked (GetInventoryId 100000000000000000000)
                        (two_items SqlBacked))
     = counter SqlBacked (two_items SqlBacked) ∧
   disk_of SqlBacked (after SqlBacked (GetInventoryId 100000000000000000000)
                        (two_items SqlBacked))
     = upload_single None (disk_of SqlBacked (two_items SqlBacked))).
Proof.
  split.
  - apply (unknown_id_not_found SqlBacked (two_items SqlBacked) 7
             (PutInventoryIdPhoto 7 (Some (Upload "/cache/z9")))); reflexivity.
  - apply (unknown_id_not_found SqlBacked (two_items SqlBacked) 100000000000000000000
             (GetInventoryId 100000000000000000000)); reflexivity.
Defined.

(** X5: the status codes each route can answer with, in any state of either
    variant: 500 when a database query of the handler throws, and otherwise
    201 or 400 for a registration, 200 for the list, 200, 400 or 404 for a
    photo replacement, and 200 or 404 for every other route. *)
Theorem status_codes_by_route (v : variant) (s : state_of v) (r : request) :
  if db_refuses v r s then status (respond v r s) = 500
  else
    match r with
    | PostRegister _ _ _ => status (respond v r s) = 201 ∨ status (respond v r s) = 400
    | GetInventory => status (respond v r s) = 200
    | PutInventoryIdPhoto _ _ =>
        status (respond v r s) = 200 ∨ status (respond v r s) = 400 ∨
        status (respond v r s) = 404
    | _ => status (respond v r s) = 200 ∨ status (respond v r s) = 404
    end.
Proof.
  destruct (db_refuses v r s) eqn:Href.
  { by destruct (view_refused v s r Href) as (_ & _ & _ & ->). }
  unfold respond. destruct v, r; simpl in *;
    unfold Mem.post_register, Mem.get_inventory, Mem.get_inventory_id, Mem.put_inventory_id,
      Mem.get_inventory_id_photo, Mem.put_inventory_id_photo, Mem.delete_inventory_id,
      Mem.post_search, Sql.post_register, Sql.insert_returning, Sql.insert_ok,
      Sql.get_inventory, Sql.get_inventory_id, Sql.put_inventory_id,
      Sql.get_inventory_id_photo, Sql.put_inventory_id_photo, Sql.delete_inventory_id,
      Sql.post_search in *;
    simpl in *; repeat case_match; simpl in *; simplify_eq; simpl; auto;
    try (exfalso; eapply cleanup_photo_Some; eassumption);
    destruct (truthy _); simpl in *; congruence.
Qed.

(** ** Serving photos *)

Lemma get_photo_consistent v s x i :
  consistent v s → lookup_item v s x = Some i →
  respond v (GetInventoryIdPhoto x) s =
    match photo i with
    | Some p => Response 200 (BFile p)
    | None => not_found
    end.
Proof.
  intros Hok E. unfold respond. rewrite (view_get_photo v s x i E). simpl.
  destruct (photo i) as [p|] eqn:Hp; [|done].
  destruct (lookup_elem_of v s x i E) as [Hi _].
  pose proof (ok_photo_exists _ _ _ (ok_store _ _ Hok) i p Hi Hp) as Hex.
  by rewrite (existsSync_truthy _ _ Hex), Hex.
Qed.

(** X6: in a reachable state the photo route serves the stored file of every
    item that has a photo path, and answers 404 exactly for the items without
    one: a stored path never points at a missing file. *)
Theorem photo_served_iff_stored (v : variant) (s : state_of v) (x : Z) (i : item) :
  reachable v s → lookup_item v s x = Some i →
  respond v (GetInventoryIdPhoto x) s =
    match photo i with
    | Some p => Response 200 (BFile p)
    | None => not_found
    end.
Proof. intros Hs. apply get_photo_consistent. by apply reachable_consistent. Qed.

Lemma photo_served_iff_stored_witness :
  respond InMemory (GetInventoryIdPhoto 1) (two_items InMemory) = Response 200 (BFile "/cache/a1") ∧
  respond InMemory (GetInventoryIdPhoto 2) (two_items InMemory) = not_found.
Proof.
  split.
  - apply (photo_served_iff_stored InMemory (two_items InMemory) 1
             (Item 1 (JStr "Laptop") (JStr "16GB RAM") (Some "/cache/a1"))).
    + apply two_items_reachable.
    + reflexivity.
  - apply (photo_served_iff_stored InMemory (two_items InMemory) 2
             (Item 2 (JStr "Phone") (JStr "") None)).
    + apply two_items_reachable.
    + reflexivity.
Defined.

(** X7: after a registration that the store takes the photo route, asked
    for the new id, serves the uploaded file, and answers 404 when no file
    was uploaded. *)
Theorem registered_photo_is_served (v : variant) (s : state_of v)
    (nm ds : jsval) (f : option upload) :
  reachable v s → fresh_upload (PostRegister nm ds f) (disk_of v s) → truthy nm = true →
  db_refuses v (PostRegister nm ds f) s = false →
  respond v (GetInventoryIdPhoto (counter v s)) (after v (PostRegister nm ds f) s) =
    match f with
    | Some u => Response 200 (BFile (path u))
    | None => not_found
    end.
Proof.
  intros Hs Hfresh Hnm Href. pose proof (reachable_consistent v s Hs) as Hok.
  pose proof (consistent_step v s _ Hok Hfresh) as Hok'.
  pose proof (lookup_registered v s nm ds f Hok Hnm Href) as Hl. simpl in Hl.
  rewrite stored_record_id in Hl.
  rewrite (get_photo_consistent v _ _ _ Hok' Hl), stored_record_photo. by destruct f.
Qed.

Lemma registered_photo_is_served_witness :
  respond SqlBacked (GetInventoryIdPhoto 3)
    (after SqlBacked (PostRegister (JStr "Desk") JUndefined (Some (Upload "/cache/d4")))
       (two_items SqlBacked))
  = Response 200 (BFile "/cache/d4").
Proof.
  apply (registered_photo_is_served SqlBacked (two_items SqlBacked)
           (JStr "Desk") JUndefined (Some (Upload "/cache/d4"))).
  - apply two_items_reachable.
  - split; [done|]. simpl. set_solver.
  - reflexivity.
  - reflexivity.
Defined.

(** X8: after a successful photo replacement the photo route serves the new
    file for that item. *)
Theorem replaced_photo_is_served (v : variant) (s : state_of v) (x : Z) (i : item)
    (u : upload) :
  reachable v s → fresh_upload (PutInventoryIdPhoto x (Some u)) (disk_of v s) →
  lookup_item v s x = Some i →
  respond v (GetInventoryIdPhoto x) (after v (PutInventoryIdPhoto x (Some u)) s) =
    Response 200 (BFile (path u)).
Proof.
  intros Hs Hfresh E. pose proof (reachable_consistent v s Hs) as Hok.
  pose proof (consistent_step v s _ Hok Hfresh) as Hok'.
  destruct (lookup_split v s x i E) as (l1 & l2 & Hr & Hi & Hl1).
  pose proof (lookup_id_ok v s x i E) as Hx.
  destruct (view_replace v s x u l1 i l2 (ok_nodup v s Hok) Hr Hi Hl1 Hx)
    as (d' & _ & Hr' & _).
  assert (Hl : lookup_item v (after v (PutInventoryIdPhoto x (Some u)) s) x
               = Some (set_photo i (Some (path u)))).
  { by apply (lookup_at v _ x l1 (set_photo i (Some (path u))) l2). }
  by rewrite (get_photo_consistent v _ _ _ Hok' Hl).
Qed.

Lemma replaced_photo_is_served_witness :
  respond InMemory (GetInventoryIdPhoto 1)
    (after InMemory (PutInventoryIdPhoto 1 (Some (Upload "/cache/e5"))) (two_items InMemory))
  = Response 200 (BFile "/cache/e5").
Proof.
  apply (replaced_photo_is_served InMemory (two_items InMemory) 1
           (Item 1 (JStr "Laptop") (JStr "16GB RAM") (Some "/cache/a1")) (Upload "/cache/e5")).
  - apply two_items_reachable.
  - split; [done|]. simpl. set_solver.
  - reflexivity.
Defined.

(** ** After a deletion *)

Lemma lookup_after_delete v s x i :
  consistent v s → lookup_item v s x = Some i →
  lookup_item v (after v (DeleteInventoryId x) s) x = None ∧
  respond v (DeleteInventoryId x) s = item_deleted.
Proof.
  intros Hok E. pose proof (ok_nodup v s Hok) as Hnd.
  destruct (lookup_split v s x i E) as (l1 & l2 & Hr & Hi & Hl1).
  destruct (view_delete v s x l1 i l2 Hnd Hr Hi Hl1 (lookup_id_ok v s x i E))
    as (d' & _ & Hr' & _ & _ & Ho).
  split; [|done]. rewrite Hr in Hnd. apply NoDup_ids_middle in Hnd as [H1 H2].
  apply lookup_off. rewrite Hr', <- Hi. intros j [?|?]%elem_of_app; auto.
Qed.

(** X9: once an item has been deleted, every request addressed to its id is
    answered with 404: get, update, search, a second delete, and a photo
    replacement that carries a file. *)
Theorem deleted_item_is_unknown (v : variant) (s : state_of v) (x : Z) (r : request) :
  reachable v s → status (respond v (DeleteInventoryId x) s) = 200 →
  request_target r = Some x → replaces_without_file r = false →
  status (respond v r (after v (DeleteInventoryId x) s)) = 404.
Proof.
  intros Hs Hdel Ht%request_target_param Hf. pose proof (reachable_consistent v s Hs) as Hok.
  destruct (lookup_item v s x) as [i|] eqn:E.
  - destruct (lookup_after_delete v s x i Hok E) as [Hgone _].
    destruct (unknown_target v _ x r Hgone Ht Hf) as (-> & _).
    by rewrite (lookup_id_ok v s x i E).
  - destruct (unknown_target v s x (DeleteInventoryId x) E) as (Ho & _); [done..|].
    rewrite Ho in Hdel. by destruct (id_ok v x).
Qed.

Lemma deleted_item_is_unknown_witness :
  status (respond SqlBacked (DeleteInventoryId 1)
            (after SqlBacked (DeleteInventoryId 1) (two_items SqlBacked))) = 404.
Proof.
  apply (deleted_item_is_unknown SqlBacked (two_items SqlBacked) 1 (DeleteInventoryId 1)).
  - apply two_items_reachable.
  - reflexivity.
  - reflexivity.
  - reflexivity.
Defined.

(** ** Field updates *)

Lemma updated_record_idem v nm ds i :
  updated_record v nm ds (updated_record v nm ds i) = updated_record v nm ds i.
Proof.
  destruct v; simpl.
  - unfold Mem.assign_fields. by destruct (truthy nm), (truthy ds).
  - unfold Sql.update_fields_row. by destruct nm, ds.
Qed.

(** Whether the database takes a field update of a stored record depends on
    the request alone. *)
Lemma update_refusal v s s' x nm ds i :
  lookup_item v s x = Some i → db_refuses v (PutInventoryId x nm ds) s = false →
  db_refuses v (PutInventoryId x nm ds) s' = false.
Proof.
  destruct v; [done|]. simpl. destruct (Sql.int4 x); [|done].
  destruct (Sql.select_where_id x (Sql.items s)); [done|].
  intros _ ->. by destruct (Sql.select_where_id x (Sql.items s')).
Qed.

(** X10: a field update is idempotent: sent a second time, the same update
    leaves the state as the first one left it and is answered as the first
    one was. *)
Theorem update_idempotent (v : variant) (s : state_of v) (x : Z) (nm ds : jsval) :
  reachable v s →
  handle v (PutInventoryId x nm ds) (after v (PutInventoryId x nm ds) s) =
    (after v (PutInventoryId x nm ds) s, respond v (PutInventoryId x nm ds) s).
Proof.
  intros Hs. pose proof (reachable_consistent v s Hs) as Hok.
  pose proof (ok_nodup v s Hok) as Hnd.
  assert (Hsame : after v (PutInventoryId x nm ds) s = s →
            handle v (PutInventoryId x nm ds) (after v (PutInventoryId x nm ds) s) =
            (after v (PutInventoryId x nm ds) s, respond v (PutInventoryId x nm ds) s)).
  { intros Ha. rewrite Ha. by apply injective_projections. }
  destruct (db_refuses v (PutInventoryId x nm ds) s) eqn:Href.
  { apply Hsame. destruct (view_refused v s _ Href) as (? & ? & ? & _). by apply state_ext. }
  destruct (lookup_item v s x) as [i|] eqn:E.
  - destruct (lookup_split v s x i E) as (l1 & l2 & Hr & Hi & Hl1).
    destruct (view_update v s x nm ds l1 i l2 Hnd Hr Hi Hl1 Href) as (Hr1 & Hc1 & Hd1 & Ho1).
    set (s1 := after v (PutInventoryId x nm ds) s) in *.
    assert (Hnd1 : NoDup (id <$> records v s1)).
    { rewrite Hr1. rewrite Hr in Hnd. revert Hnd.
      by rewrite !fmap_app, !fmap_cons, updated_record_id. }
    assert (Hi1 : id (updated_record v nm ds i) = x) by (by rewrite updated_record_id).
    assert (Href1 : db_refuses v (PutInventoryId x nm ds) s1 = false).
    { by apply (update_refusal v s s1 x nm ds i). }
    destruct (view_update v s1 x nm ds l1 _ l2 Hnd1 Hr1 Hi1 Hl1 Href1)
      as (Hr2 & Hc2 & Hd2 & Ho2).
    rewrite updated_record_idem in Hr2, Ho2.
    apply injective_projections; simpl.
    + apply state_ext; [by rewrite Hr1|done..].
    + by rewrite Ho1.
  - apply Hsame. by destruct (view_unknown v s x (PutInventoryId x nm ds) E) as [Ha _]; [eauto|].
Qed.

Lemma update_idempotent_witness :
  handle SqlBacked (PutInventoryId 2 (JStr "Tablet") JUndefined)
    (after SqlBacked (PutInventoryId 2 (JStr "Tablet") JUndefined) (two_items SqlBacked)) =
  (after SqlBacked (PutInventoryId 2 (JStr "Tablet") JUndefined) (two_items SqlBacked),
   respond SqlBacked (PutInventoryId 2 (JStr "Tablet") JUndefined) (two_items SqlBacked)).
Proof.
  apply (update_idempotent SqlBacked (two_items SqlBacked) 2 (JStr "Tablet") JUndefined).
  apply two_items_reachable.
Defined.

(** ** What a request leaves alone *)

(** X11: a request leaves every record it is not addressed to exactly as it
    was: whatever is found under another id before is found there after. *)
Theorem other_items_untouched (v : variant) (s : state_of v) (r : request) (y : Z)
    (i : item) :
  reachable v s → lookup_item v s y = Some i → request_target r ≠ Some y →
  lookup_item v (after v r s) y = Some i.
Proof.
  intros Hs E Ht. pose proof (reachable_consistent v s Hs) as Hok.
  pose proof (ok_nodup v s Hok) as Hnd.
  pose proof (lookup_id_ok v s y i E) as Hy.
  destruct (lookup_elem_of v s y i E) as [Hi Hyi]. subst y.
  destruct (store_change v s r Hnd)
    as [[Hr _]|[(nm & ds & f & -> & Hnm & Hr & _)
       |[(x & l1 & a & a' & l2 & Hx & Hr0 & Ha & _ & Hr & _ & Ha')
        |(x & l1 & a & l2 & -> & Hr0 & Ha & _ & Hr & _)]]].
  - rewrite lookup_find in E |- * by done. by rewrite Hr.
  - rewrite lookup_find in E |- * by done. rewrite Hr, find_app_new.
    + by destruct (Mem.find_id (id i) (records v s)).
    + intros j Hj. apply (ok_ids_below _ _ _ (ok_store _ _ Hok)) in Hj.
      rewrite stored_record_id. lia.
  - assert (id a' = id a) as Hid.
    { destruct Ha' as [(nm & ds & _ & ->)|(u & _ & ->)]; [apply updated_record_id|done]. }
    apply elem_of_lookup; [done| |].
    + rewrite Hr. rewrite Hr0 in Hnd. revert Hnd. by rewrite !fmap_app, !fmap_cons, Hid.
    + rewrite Hr. rewrite Hr0 in Hi.
      apply elem_of_app in Hi as [Hi|[->|Hi]%elem_of_cons]; [set_solver| |set_solver].
      destruct Ht. by rewrite Hx, Ha.
  - apply elem_of_lookup; [done| |].
    + rewrite Hr. rewrite Hr0 in Hnd. by eapply NoDup_ids_delete.
    + rewrite Hr. rewrite Hr0 in Hi.
      apply elem_of_app in Hi as [Hi|[->|Hi]%elem_of_cons]; [set_solver| |set_solver].
      destruct Ht. simpl. by rewrite Ha.
Qed.

Lemma other_items_untouched_witness :
  lookup_item InMemory (after InMemory (DeleteInventoryId 1) (two_items InMemory)) 2 =
    Some (Item 2 (JStr "Phone") (JStr "") None).
Proof.
  apply (other_items_untouched InMemory (two_items InMemory) (DeleteInventoryId 1) 2).
  - apply two_items_reachable.
  - reflexivity.
  - discriminate.
Defined.

(** ** Files on disk *)

(** What a request does to the disk: it stores the upload, if any, and then,
    only when it deletes a stored item or replaces its photo, removes that
    item's old photo file. *)
Lemma disk_change v s r :
  disk_of v (after v r s) = upload_single (request_file r) (disk_of v s) ∨
  ∃ (x : Z) i d', lookup_item v s x = Some i ∧
    (r = DeleteInventoryId x ∨ ∃ u, r = PutInventoryIdPhoto x (Some u)) ∧
    cleanup_photo (photo i) (upload_single (request_file r) (disk_of v s)) = Some d' ∧
    disk_of v (after v r s) = d'.
Proof.
  assert (Hsame : after v r s = s → request_file r = None →
            disk_of v (after v r s) = upload_single (request_file r) (disk_of v s))
    by (by intros -> ->).
  destruct (db_refuses v r s) eqn:Href.
  { left. by destruct (view_refused v s r Href) as (_ & _ & ? & _). }
  destruct r as [nm ds f| |x|x nm ds|x|x f|x|x p].
  - left. destruct (truthy nm) eqn:Hnm.
    + by destruct (view_register v s nm ds f Hnm Href) as (_ & _ & ? & _).
    + by destruct (view_register_rejected v s nm ds f Hnm) as (_ & _ & ? & _).
  - left. by apply Hsame; [apply view_list|].
  - left. apply Hsame; [|done]. by_lookup v s x a E.
    + unfold after. by rewrite (view_get v s x a E).
    + by destruct (view_unknown v s x (GetInventoryId x) E) as [-> _]; [set_solver|].
  - left. unfold after. destruct v; simpl;
      unfold Mem.put_inventory_id, Sql.put_inventory_id; by repeat case_match.
  - left. apply Hsame; [|done]. by_lookup v s x a E.
    + unfold after. by rewrite (view_get_photo v s x a E).
    + by destruct (view_unknown v s x (GetInventoryIdPhoto x) E) as [-> _]; [set_solver|].
  - destruct f as [u|]; by_lookup v s x a E.
    + right. destruct (cleanup_route v s x a (PutInventoryIdPhoto x (Some u)) E)
        as (d' & Hc & Hd & _); [eauto|]. exists x, a, d'. split; [done|]. split; [eauto|done].
    + left. by destruct (view_replace_rejected v s x (Some u)) as (_ & _ & ? & _); [by right|].
    + left. by destruct (view_replace_rejected v s x None) as (_ & _ & ? & _); [by left|].
    + left. by destruct (view_replace_rejected v s x None) as (_ & _ & ? & _); [by left|].
  - by_lookup v s x a E.
    + right. destruct (cleanup_route v s x a (DeleteInventoryId x) E)
        as (d' & Hc & Hd & _); [eauto|]. exists x, a, d'. split; [done|]. split; [eauto|done].
    + left. apply Hsame; [|done].
      by destruct (view_unknown v s x (DeleteInventoryId x) E) as [-> _]; [set_solver|].
  - left. apply Hsame; [|done]. by_lookup v s x a E.
    + unfold after. by rewrite (view_search v s x p a E).
    + by destruct (view_unknown v s x (PostSearch x p) E) as [-> _]; [eauto|].
Qed.

(** X12: a request removes a file from disk only if that file is the photo
    of the stored item it deletes or whose photo it replaces; no other file,
    and no file on any other route, is ever removed.  Holds in any state. *)
Theorem files_removed_only_by_owner (v : variant) (s : state_of v) (r : request)
    (p : string) :
  existsSync (disk_of v s) p = true → existsSync (disk_of v (after v r s)) p = false →
  ∃ x i, lookup_item v s x = Some i ∧ photo i = Some p ∧
    (r = DeleteInventoryId x ∨ ∃ u, r = PutInventoryIdPhoto x (Some u)).
Proof.
  intros Hbefore Hafter.
  pose proof (upload_keeps (request_file r) _ _ Hbefore) as Hup.
  destruct (disk_change v s r) as [Hd|(x & i & d' & E & Hr & Hc & Hd)].
  - rewrite Hd in Hafter. congruence.
  - exists x, i. split; [done|]. split; [|done].
    destruct (decide (photo i = Some p)) as [|Hne]; [done|].
    rewrite Hd in Hafter. pose proof (cleanup_keeps _ _ _ p Hc Hne Hup). congruence.
Qed.

Lemma files_removed_only_by_owner_witness :
  ∃ x i, lookup_item InMemory (two_items InMemory) x = Some i ∧ photo i = Some "/cache/a1" ∧
    (DeleteInventoryId 1 = DeleteInventoryId x ∨
     ∃ u, DeleteInventoryId 1 = PutInventoryIdPhoto x (Some u)).
Proof.
  apply (files_removed_only_by_owner InMemory (two_items InMemory) (DeleteInventoryId 1)
           "/cache/a1").
  - apply bool_decide_eq_true. split; [done|]. simpl. set_solver.
  - apply bool_decide_eq_false. simpl. set_solver.
Defined.

(** X13: a file uploaded with a request that is then turned down (a
    registration without a name, a photo replacement for an unknown id) stays
    in the cache directory although no record refers to it. *)
Theorem rejected_upload_stays_on_disk (v : variant) (s : state_of v) (r : request)
    (u : upload) :
  reachable v s → fresh_upload r (disk_of v s) → request_file r = Some u →
  status (respond v r s) ≠ 200 → status (respond v r s) ≠ 201 →
  existsSync (disk_of v (after v r s)) (path u) = true ∧
  ∀ i, i ∈ records v (after v r s) → photo i ≠ Some (path u).
Proof.
  intros Hs Hfresh Hf H200 H201. pose proof (reachable_consistent v s Hs) as Hok.
  unfold fresh_upload in Hfresh. rewrite Hf in Hfresh. destruct Hfresh as [Hne Hnew].
  assert (Hrej : records v (after v r s) = records v s ∧
                 disk_of v (after v r s) = upload_single (Some u) (disk_of v s)).
  { destruct (db_refuses v r s) eqn:Href.
    { destruct (view_refused v s r Href) as (? & _ & Hd & _). by rewrite Hf in Hd. }
    destruct r as [nm ds f| |x|x nm ds|x|x f|x|x p]; simpl in Hf; try done; subst f.
    - destruct (truthy nm) eqn:Hnm.
      + destruct (view_register v s nm ds (Some u) Hnm Href) as (_ & _ & _ & Ho).
        by rewrite Ho in H201.
      + by destruct (view_register_rejected v s nm ds (Some u) Hnm) as (? & _ & ? & _).
    - by_lookup v s x a E.
      + destruct (cleanup_route v s x a (PutInventoryIdPhoto x (Some u)) E)
          as (_ & _ & _ & Ho); [eauto|]. by rewrite Ho in H200.
      + by destruct (view_replace_rejected v s x (Some u)) as (? & _ & ? & _); [by right|]. }
  destruct Hrej as [-> ->]. split; [by apply upload_exists|].
  intros i Hi Hp. apply (ok_photo_exists _ _ _ (ok_store _ _ Hok) i _ Hi) in Hp.
  apply existsSync_true in Hp. tauto.
Qed.

Lemma rejected_upload_stays_on_disk_witness :
  existsSync (disk_of SqlBacked
    (after SqlBacked (PostRegister (JStr "") JUndefined (Some (Upload "/cache/f6")))
       (two_items SqlBacked))) "/cache/f6" = true ∧
  ∀ i, i ∈ records SqlBacked
         (after SqlBacked (PostRegister (JStr "") JUndefined (Some (Upload "/cache/f6")))
            (two_items SqlBacked)) →
       photo i ≠ Some "/cache/f6".
Proof.
  apply (rejected_upload_stays_on_disk SqlBacked (two_items SqlBacked)
           (PostRegister (JStr "") JUndefined (Some (Upload "/cache/f6")))
           (Upload "/cache/f6")).
  - apply two_items_reachable.
  - split; [done|]. simpl. set_solver.
  - reflexivity.
  - discriminate.
  - discriminate.
Defined.

(** ** Stored values *)

(** X14: in the in-memory variant every stored name is truthy (so never
    empty, [null] or missing) in every reachable state, and every stored
    description is truthy or the empty string: registration demands a name
    and defaults the description, and an update only assigns truthy values. *)
Theorem mem_stored_names_nonempty (s : Mem.state) (i : item) :
  reachable InMemory s → i ∈ Mem.inventory s →
  truthy (name i) = true ∧ (truthy (description i) = true ∨ description i = JStr "").
Proof.
  intros Hs Hi. revert i Hi.
  apply (items_invariant InMemory
           (λ i, truthy (name i) = true ∧
                 (truthy (description i) = true ∨ description i = JStr "")) s); [| | |done].
  - intros n nm ds f Hnm. simpl. split; [done|].
    unfold js_or. destruct (truthy ds) eqn:Hds; auto.
  - intros nm ds i [Hn Hd]. simpl. unfold Mem.assign_fields.
    destruct (truthy nm) eqn:Hnm, (truthy ds) eqn:Hds; simpl; auto.
  - intros i p H. exact H.
Qed.

Lemma mem_stored_names_nonempty_witness :
  truthy (JStr "Phone") = true ∧ (truthy (JStr "") = true ∨ JStr "" = JStr "").
Proof.
  apply (mem_stored_names_nonempty (two_items InMemory) (Item 2 (JStr "Phone") (JStr "") None)).
  - apply (two_items_reachable InMemory).
  - simpl. set_solver.
Defined.

(** X15: in the SQL-backed variant every stored name and description is a
    string in every reachable state: whatever scalar a request carries is
    stored in its string form, and a missing description as the empty
    string. *)
Theorem sql_stored_fields_are_text (s : Sql.state) (i : item) :
  reachable SqlBacked s → i ∈ Sql.items s → is_text (name i) ∧ is_text (description i).
Proof.
  intros Hs Hi. revert i Hi.
  apply (items_invariant SqlBacked (λ i, is_text (name i) ∧ is_text (description i)) s);
    [| | |done].
  - intros n nm ds f Hnm. simpl. split.
    + destruct nm; try done; by eexists.
    + unfold js_or. destruct (truthy ds) eqn:Hds; [|by eexists].
      destruct ds; try done; by eexists.
  - intros nm ds i [Hn Hd]. simpl. split.
    + destruct nm; simpl; try done; by eexists.
    + destruct ds; simpl; try done; by eexists.
  - intros i p H. exact H.
Qed.

Lemma sql_stored_fields_are_text_witness :
  is_text (JStr "Laptop") ∧ is_text (JStr "16GB RAM").
Proof.
  apply (sql_stored_fields_are_text (two_items SqlBacked)
           (Item 1 (JStr "Laptop") (JStr "16GB RAM") (Some "/cache/a1"))).
  - apply (two_items_reachable SqlBacked).
  - simpl. set_solver.
Defined.

(** X16: in a reachable state no two stored items share a photo file, so
    removing the photo of one item never takes away the photo of another. *)
Theorem photo_files_not_shared (v : variant) (s : state_of v) (i j : item) (p : string) :
  reachable v s → i ∈ records v s → j ∈ records v s →
  photo i = Some p → photo j = Some p → i = j.
Proof.
  intros Hs Hi Hj Hpi Hpj. pose proof (reachable_consistent v s Hs) as Hok.
  apply (same_id_same_record (records v s)); [apply (ok_ids_nodup _ _ _ (ok_store _ _ Hok))|done..|].
  by apply (ok_photo_owner _ _ _ (ok_store _ _ Hok) i j p).
Qed.

Lemma photo_files_not_shared_witness :
  Item 1 (JStr "Laptop") (JStr "16GB RAM") (Some "/cache/a1") =
  Item 1 (JStr "Laptop") (JStr "16GB RAM") (Some "/cache/a1").
Proof.
  apply (photo_files_not_shared InMemory (two_items InMemory) _ _ "/cache/a1").
  - apply two_items_reachable.
  - simpl. set_solver.
  - simpl. set_solver.
  - reflexivity.
  - reflexivity.
Defined.

(** ** The two variants on text requests *)

Lemma ids_increasing_NoDup l : ids_increasing l → NoDup (id <$> l).
Proof.
  unfold ids_increasing. induction l as [|a l IH]; [constructor|].
  rewrite fmap_cons, StronglySorted_cons, Forall_forall. intros [Ha Hl].
  apply NoDup_cons. split; [|by apply IH]. intros Hin. apply Ha in Hin. lia.
Qed.

Lemma ids_step v s r :
  ids_increasing (records v s) → (∀ i, i ∈ records v s → id i < counter v s) →
  ids_increasing (records v (after v r s)) ∧
  ∀ i, i ∈ records v (after v r s) → id i < counter v (after v r s).
Proof.
  intros Hinc Hbelow. unfold ids_increasing in *.
  destruct (store_change v s r (ids_increasing_NoDup _ Hinc))
    as [[-> ->]|[(nm & ds & f & -> & Hnm & -> & ->)
       |[(x & l1 & a & a' & l2 & _ & Hr & Hx & _ & -> & -> & Ha')
        |(x & l1 & a & l2 & _ & Hr & _ & _ & -> & ->)]]]; [done|..].
  - split.
    + rewrite fmap_app. apply StronglySorted_app_2; [|done|repeat constructor].
      intros y z (j & -> & Hj)%list_elem_of_fmap ->%list_elem_of_singleton.
      simpl. rewrite stored_record_id. by apply Hbelow.
    + intros i [Hi| ->%list_elem_of_singleton]%elem_of_app.
      * apply Hbelow in Hi. lia.
      * rewrite stored_record_id. lia.
  - assert (id a' = id a) as Hid.
    { destruct Ha' as [(nm & ds & _ & ->)|(u & _ & ->)]; [apply updated_record_id|done]. }
    rewrite Hr in Hinc, Hbelow. split.
    + revert Hinc. by rewrite !fmap_app, !fmap_cons, Hid.
    + intros i [Hi|[->|Hi]%elem_of_cons]%elem_of_app; [apply Hbelow; set_solver| |apply Hbelow; set_solver].
      rewrite Hid. apply Hbelow. set_solver.
  - rewrite Hr in Hinc, Hbelow. split.
    + revert Hinc.
      rewrite !fmap_app, fmap_cons, !StronglySorted_app, StronglySorted_cons. set_solver.
    + intros i Hi. apply Hbelow. set_solver.
Qed.

Lemma stored_record_text n nm ds f :
  text_or_missing nm = true → text_or_missing ds = true → truthy nm = true →
  stored_record InMemory n nm ds f = stored_record SqlBacked n nm ds f.
Proof.
  intros Hnm Hds Ht. destruct nm as [| | | |a]; try done.
  destruct ds as [| | | |b]; try done; simpl; unfold js_or; simpl; try done.
  by destruct (String.eqb b "") eqn:Hb; simpl; [apply String.eqb_eq in Hb; subst|].
Qed.

Lemma updated_record_text nm ds i :
  nonempty_text_or_missing nm = true → nonempty_text_or_missing ds = true →
  updated_record InMemory nm ds i = updated_record SqlBacked nm ds i.
Proof.
  intros Hnm Hds. destruct i as [n a b p]. simpl.
  unfold Mem.assign_fields, Sql.update_fields_row.
  destruct nm as [| | | |c], ds as [| | | |e]; try done; simpl in *;
    repeat match goal with
           | H : _ && _ = true |- _ => apply andb_true_iff in H as [-> _]
           end; done.
Qed.

(** The database takes every text request, as long as the id sequence is not
    exhausted. *)
Lemma text_request_accepted q r :
  Sql.int4 (Sql.items_id_seq q) = true → text_request r = true → Sql.refuses r q = false.
Proof.
  intros Hseq [Htext Hid]%andb_true_iff.
  assert (Hparam : ∀ y, id_ok SqlBacked y = true → ∃ x, Sql.id_param y = Some x).
  { intros y Hy. simpl in Hy. destruct (Sql.id_param y) as [x|]; [eauto|done]. }
  destruct r as [nm ds f| |y|y nm ds|y|y f|y|y p]; simpl in *; try done;
    try (by destruct (Hparam y Hid) as [x ->]).
  - apply andb_true_iff in Htext as [Hnm Hds].
    apply andb_false_iff. right. apply negb_false_iff.
    unfold Sql.insert_ok. rewrite Hseq, andb_true_r. apply andb_true_iff. split.
    + by destruct nm.
    + destruct ds as [| | | |b]; try done. unfold js_or. simpl.
      by destruct (String.eqb b "").
  - destruct (Hparam y Hid) as [x ->].
    apply andb_true_iff in Htext as [Hnm Hds].
    destruct (Sql.select_where_id x (Sql.items q)); [done|].
    apply negb_false_iff. unfold Sql.update_ok. apply andb_true_iff. split.
    + destruct nm as [| | | |c]; try done. simpl in *.
      by apply andb_true_iff in Hnm as [_ ->].
    + destruct ds as [| | | |e]; try done. simpl in *.
      by apply andb_true_iff in Hds as [_ ->].
  - destruct (Hparam y Hid) as [x ->]. by destruct f.
Qed.

Lemma same_store_step m q r :
  Mem.inventory m = Sql.items q → Mem.nextId m = Sql.items_id_seq q → Mem.fs m = Sql.fs q →
  ids_increasing (Mem.inventory m) → (∀ i, i ∈ Mem.inventory m → id i < Mem.nextId m) →
  Sql.int4 (Mem.nextId m) = true →
  text_request r = true → replaces_without_file r = false →
  respond InMemory r m = respond SqlBacked r q ∧
  Mem.inventory (after InMemory r m) = Sql.items (after SqlBacked r q) ∧
  Mem.nextId (after InMemory r m) = Sql.items_id_seq (after SqlBacked r q) ∧
  Mem.fs (after InMemory r m) = Sql.fs (after SqlBacked r q).
Proof.
  intros Hl Hn Hd Hinc Hbelow Hseq Htext Hbare.
  pose proof (ids_increasing_NoDup _ Hinc) as Hnd.
  assert (Hndq : NoDup (id <$> Sql.items q)) by (by rewrite <- Hl).
  assert (Href : db_refuses SqlBacked r q = false).
  { apply text_request_accepted; [by rewrite <- Hn|done]. }
  unfold text_request in Htext. apply andb_true_iff in Htext as [Htext Hidok].
  assert (Hlook : ∀ x : Z, id_ok SqlBacked x = true →
            lookup_item SqlBacked q x = lookup_item InMemory m x).
  { intros x Hx. rewrite (lookup_find SqlBacked) by done.
    rewrite (lookup_find InMemory) by done. simpl. by rewrite Hl. }
  assert (Hread : ∀ o, handle InMemory r m = (m, o) → handle SqlBacked r q = (q, o) →
            respond InMemory r m = respond SqlBacked r q ∧
            Mem.inventory (after InMemory r m) = Sql.items (after SqlBacked r q) ∧
            Mem.nextId (after InMemory r m) = Sql.items_id_seq (after SqlBacked r q) ∧
            Mem.fs (after InMemory r m) = Sql.fs (after SqlBacked r q)).
  { intros o Hm Hq. unfold respond, after. by rewrite Hm, Hq. }
  assert (Hid : ∀ y, request_param r = Some y → id_ok SqlBacked y = true).
  { intros y Hy. by rewrite Hy in Hidok. }
  assert (Hnone : ∀ y, request_param r = Some y → lookup_parsed InMemory m y = None →
            lookup_parsed SqlBacked q y = None).
  { intros y Hy E. destruct y as [x|]; [|done]. cbn [lookup_parsed] in *.
    rewrite Hlook; [done|]. by apply Hid. }
  assert (Hmiss : ∀ y, request_param r = Some y → lookup_parsed InMemory m y = None →
            r ∈ [GetInventoryId y; GetInventoryIdPhoto y; DeleteInventoryId y] ∨
            (∃ nm ds, r = PutInventoryId y nm ds) ∨ (∃ p, r = PostSearch y p) →
            respond InMemory r m = respond SqlBacked r q ∧
            Mem.inventory (after InMemory r m) = Sql.items (after SqlBacked r q) ∧
            Mem.nextId (after InMemory r m) = Sql.items_id_seq (after SqlBacked r q) ∧
            Mem.fs (after InMemory r m) = Sql.fs (after SqlBacked r q)).
  { intros y Hy E Hr. pose proof (Hnone y Hy E) as Eq.
    destruct (view_unknown InMemory m y r E Hr) as [Hm1 Hm2].
    destruct (view_unknown SqlBacked q y r Eq Hr) as [Hq1 Hq2].
    rewrite (Hid y Hy) in Hq2.
    apply (Hread not_found); by apply injective_projections. }
  clear Hidok. destruct r as [nm ds f| |x|x nm ds|x|x f|x|x p]; simpl in Hbare, Htext.
  - apply andb_true_iff in Htext as [Hnm Hds]. destruct (truthy nm) eqn:Ht.
    + destruct (view_register InMemory m nm ds f Ht eq_refl) as (Hm1 & Hm2 & Hm3 & Hm4).
      destruct (view_register SqlBacked q nm ds f Ht Href) as (Hq1 & Hq2 & Hq3 & Hq4).
      cbn [records counter disk_of] in *. rewrite Hm1, Hm2, Hm3, Hm4, Hq1, Hq2, Hq3, Hq4.
      by rewrite (stored_record_text _ nm ds f Hnm Hds Ht), Hl, Hn, Hd.
    + destruct (view_register_rejected InMemory m nm ds f Ht) as (Hm1 & Hm2 & Hm3 & Hm4).
      destruct (view_register_rejected SqlBacked q nm ds f Ht) as (Hq1 & Hq2 & Hq3 & Hq4).
      cbn [records counter disk_of] in *. by rewrite Hm1, Hm2, Hm3, Hm4, Hq1, Hq2, Hq3, Hq4, Hl, Hn, Hd.
  - apply (Hread (Response 200 (BList (with_link <$> Mem.inventory m)))); [done|].
    simpl. unfold Sql.get_inventory.
    by rewrite <- Hl, (select_order_by_id_sorted _ Hnd Hinc).
  - by_lookup InMemory m x i E; [|apply (Hmiss x); [done..|set_solver]].
    pose proof E as Eq. rewrite <- Hlook in Eq by (by apply (Hid x)).
    apply (Hread _ (view_get InMemory m x i E) (view_get SqlBacked q x i Eq)).
  - apply andb_true_iff in Htext as [Hnm Hds].
    by_lookup InMemory m x i E; [|apply (Hmiss x); [done..|eauto]].
    destruct (lookup_split InMemory m x i E) as (l1 & l2 & Hr & Hi & Hl1).
    assert (Hrq : records SqlBacked q = l1 ++ i :: l2) by (simpl in *; congruence).
    destruct (view_update InMemory m x nm ds l1 i l2 Hnd Hr Hi Hl1 eq_refl)
      as (Hm1 & Hm2 & Hm3 & Hm4).
    destruct (view_update SqlBacked q x nm ds l1 i l2 Hndq Hrq Hi Hl1 Href)
      as (Hq1 & Hq2 & Hq3 & Hq4).
    cbn [records counter disk_of] in Hm1, Hm2, Hm3, Hq1, Hq2, Hq3.
    rewrite Hm1, Hm2, Hm3, Hm4, Hq1, Hq2, Hq3, Hq4.
    by rewrite (updated_record_text nm ds i Hnm Hds), Hn, Hd.
  - by_lookup InMemory m x i E; [|apply (Hmiss x); [done..|set_solver]].
    pose proof E as Eq. rewrite <- Hlook in Eq by (by apply (Hid x)).
    pose proof (view_get_photo SqlBacked q x i Eq) as Hq. simpl in Hq. rewrite <- Hd in Hq.
    apply (Hread _ (view_get_photo InMemory m x i E) Hq).
  - destruct f as [u|]; [|done].
    by_lookup InMemory m x i E.
    + destruct (lookup_split InMemory m x i E) as (l1 & l2 & Hr & Hi & Hl1).
      assert (Hrq : records SqlBacked q = l1 ++ i :: l2) by (simpl in *; congruence).
      destruct (view_replace InMemory m x u l1 i l2 Hnd Hr Hi Hl1 eq_refl)
        as (d1 & Hc1 & Hm1 & Hm2 & Hm3 & Hm4).
      destruct (view_replace SqlBacked q x u l1 i l2 Hndq Hrq Hi Hl1 (Hid x eq_refl))
        as (d2 & Hc2 & Hq1 & Hq2 & Hq3 & Hq4).
      assert (d1 = d2) as <-.
      { simpl in Hc1, Hc2. rewrite <- Hd, Hc1 in Hc2. by injection Hc2. }
      cbn [records counter disk_of] in Hm1, Hm2, Hm3, Hq1, Hq2, Hq3.
      by rewrite Hm1, Hm2, Hm3, Hm4, Hq1, Hq2, Hq3, Hq4, Hn.
    + pose proof (Hnone x eq_refl E) as Eq.
      destruct (view_replace_rejected InMemory m x (Some u)) as (Hm1 & Hm2 & Hm3 & Hm4);
        [by right|].
      destruct (view_replace_rejected SqlBacked q x (Some u)) as (Hq1 & Hq2 & Hq3 & Hq4);
        [by right|].
      rewrite E in Hm4. rewrite (Hid x eq_refl) in Hq4.
      cbn [records counter disk_of] in Hm1, Hm2, Hm3, Hq1, Hq2, Hq3.
      by rewrite Hm1, Hm2, Hm3, Hm4, Hq1, Hq2, Hq3, Hq4, Hl, Hn, Hd.
  - by_lookup InMemory m x i E; [|apply (Hmiss x); [done..|set_solver]].
    destruct (lookup_split InMemory m x i E) as (l1 & l2 & Hr & Hi & Hl1).
    assert (Hrq : records SqlBacked q = l1 ++ i :: l2) by (simpl in *; congruence).
    destruct (view_delete InMemory m x l1 i l2 Hnd Hr Hi Hl1 eq_refl)
      as (d1 & Hc1 & Hm1 & Hm2 & Hm3 & Hm4).
    destruct (view_delete SqlBacked q x l1 i l2 Hndq Hrq Hi Hl1 (Hid x eq_refl))
      as (d2 & Hc2 & Hq1 & Hq2 & Hq3 & Hq4).
    assert (d1 = d2) as <-.
    { simpl in Hc1, Hc2. rewrite <- Hd, Hc1 in Hc2. by injection Hc2. }
    cbn [records counter disk_of] in Hm1, Hm2, Hm3, Hq1, Hq2, Hq3.
    by rewrite Hm1, Hm2, Hm3, Hm4, Hq1, Hq2, Hq3, Hq4, Hn.
  - by_lookup InMemory m x i E; [|apply (Hmiss x); [done..|eauto]].
    pose proof E as Eq. rewrite <- Hlook in Eq by (by apply (Hid x)).
    apply (Hread _ (view_search InMemory m x p i E) (view_search SqlBacked q x p i Eq)).
Qed.

Lemma same_store_run rs m q :
  Mem.inventory m = Sql.items q → Mem.nextId m = Sql.items_id_seq q → Mem.fs m = Sql.fs q →
  ids_increasing (Mem.inventory m) → (∀ i, i ∈ Mem.inventory m → id i < Mem.nextId m) →
  1 ≤ Mem.nextId m → Mem.nextId m + Z.of_nat (length rs) ≤ 2147483648 →
  forallb (λ r, text_request r && negb (replaces_without_file r)) rs = true →
  responses InMemory rs m = responses SqlBacked rs q ∧
  Mem.inventory (final InMemory rs m) = Sql.items (final SqlBacked rs q).
Proof.
  revert m q. induction rs as [|r rs IH]; intros m q Hl Hn Hd Hinc Hbelow Hlo Hhi Hrs; [done|].
  simpl in Hrs. apply andb_true_iff in Hrs as [Hr Hrs].
  apply andb_true_iff in Hr as [Htext Hbare]. apply negb_true_iff in Hbare.
  simpl length in Hhi.
  assert (Hseq : Sql.int4 (Mem.nextId m) = true).
  { unfold Sql.int4. apply andb_true_iff. split; apply Z.leb_le; lia. }
  destruct (same_store_step m q r Hl Hn Hd Hinc Hbelow Hseq Htext Hbare)
    as (Ho & Hl' & Hn' & Hd').
  destruct (ids_step InMemory m r Hinc Hbelow) as [Hinc' Hbelow'].
  pose proof (counter_step InMemory m r) as Hc. cbn [counter] in Hc.
  assert (Hlo' : 1 ≤ Mem.nextId (after InMemory r m)) by (case_decide; lia).
  assert (Hhi' : Mem.nextId (after InMemory r m) + Z.of_nat (length rs) ≤ 2147483648)
    by (case_decide; lia).
  destruct (IH _ _ Hl' Hn' Hd' Hinc' Hbelow' Hlo' Hhi' Hrs) as [Hos Hfin].
  simpl. by rewrite Ho, Hos.
Qed.

(** X17: started on the same cache directory and given the same requests,
    the two variants give the same answers, bodies included, and end with
    the same records, as long as the requests carry text fields (strings
    without NUL bytes, or nothing), no field update carries an empty string,
    no photo replacement comes without a file, every route parameter is an
    integer that the id column can hold, and the requests are too few to
    exhaust the id sequence. *)
Theorem variants_equal_on_text_requests (d : disk) (rs : list request) :
  forallb (λ r, text_request r && negb (replaces_without_file r)) rs = true →
  Z.of_nat (length rs) < 2147483648 →
  responses InMemory rs (init InMemory d) = responses SqlBacked rs (init SqlBacked d) ∧
  records InMemory (final InMemory rs (init InMemory d)) =
    records SqlBacked (final SqlBacked rs (init SqlBacked d)).
Proof.
  intros Hrs Hlen. apply same_store_run; try done.
  - constructor.
  - simpl. set_solver.
  - simpl. lia.
Qed.

Lemma variants_equal_on_text_requests_witness :
  let rs := [ laptop; phone;
              PutInventoryId 2 (JStr "Tablet") JUndefined;
              PutInventoryIdPhoto 2 (Some (Upload "/cache/g7"));
              GetInventory; PostSearch 1 (JStr "on");
              DeleteInventoryId 1; GetInventoryId 1; GetInventoryIdPhoto 2 ] in
  responses InMemory rs (init InMemory d0) = responses SqlBacked rs (init SqlBacked d0) ∧
  records InMemory (final InMemory rs (init InMemory d0)) =
    records SqlBacked (final SqlBacked rs (init SqlBacked d0)).
Proof.
  apply (variants_equal_on_text_requests d0); reflexivity.
Defined.

(** ** Photo links *)

Lemma string_length_app (s t : string) :
  String.length (s +:+ t) = (String.length s + String.length t)%nat.
Proof. induction s as [|c s IH]; simpl; [done|]. by rewrite IH. Qed.

Lemma string_app_inv_tail (s1 s2 t : string) : s1 +:+ t = s2 +:+ t → s1 = s2.
Proof.
  revert s2. induction s1 as [|c s1 IH]; intros [|c2 s2] H; [done|..].
  - apply (f_equal String.length) in H. rewrite !string_length_app in H. simpl in H. lia.
  - apply (f_equal String.length) in H. rewrite !string_length_app in H. simpl in H. lia.
  - simpl in H. injection H as -> H. f_equal. by apply IH.
Qed.

Lemma photo_link_inj i j : photo_link i = photo_link j → i = j.
Proof.
  unfold photo_link. intros H.
  apply (inj (String.append "/inventory/")) in H.
  apply string_app_inv_tail in H. by apply (inj pretty) in H.
Qed.

(** X18: in a reachable state the photo link tells the items apart: two
    stored items that have a photo and get the same [photo_url] are the same
    item. *)
Theorem photo_urls_distinct (v : variant) (s : state_of v) (i j : item) :
  reachable v s → i ∈ records v s → j ∈ records v s →
  photo i ≠ None → photo_url_of i = photo_url_of j → i = j.
Proof.
  intros Hs Hi Hj Hp Hurl. pose proof (reachable_consistent v s Hs) as Hok.
  rewrite (photo_url_of_consistent v s i Hok Hi),
    (photo_url_of_consistent v s j Hok Hj) in Hurl.
  destruct (photo i); [|done]. destruct (photo j); [|done].
  apply (inj Some), photo_link_inj in Hurl.
  by apply (same_id_same_record (records v s)); [apply (ok_ids_nodup _ _ _ (ok_store _ _ Hok))|..].
Qed.

Lemma photo_urls_distinct_witness :
  Item 1 (JStr "Laptop") (JStr "16GB RAM") (Some "/cache/a1") =
  Item 1 (JStr "Laptop") (JStr "16GB RAM") (Some "/cache/a1").
Proof.
  apply (photo_urls_distinct SqlBacked (two_items SqlBacked)).
  - apply two_items_reachable.
  - simpl. set_solver.
  - simpl. set_solver.
  - discriminate.
  - reflexivity.
Defined.

(** ** Sequences of two requests *)

(** X19: after a field update of a stored item that the store takes,
    get-by-id answers with the record the update answered with, and with
    the photo link the item had before. *)
Theorem update_then_get (v : variant) (s : state_of v) (x : Z) (nm ds : jsval) (i : item) :
  reachable v s → lookup_item v s x = Some i →
  db_refuses v (PutInventoryId x nm ds) s = false →
  respond v (PutInventoryId x nm ds) s = Response 200 (BItem (updated_record v nm ds i)) ∧
  respond v (GetInventoryId x) (after v (PutInventoryId x nm ds) s) =
    Response 200 (BItemLink (updated_record v nm ds i)
                    match photo i with Some _ => Some (photo_link x) | None => None end).
Proof.
  intros Hs E Href. pose proof (reachable_consistent v s Hs) as Hok.
  destruct (lookup_updated v s x nm ds i Hok E Href) as [Ho Hl]. split; [done|].
  assert (Hok' : consistent v (after v (PutInventoryId x nm ds) s))
    by (by apply consistent_step).
  unfold respond. rewrite (view_get v _ x _ Hl). simpl.
  destruct (lookup_elem_of v _ x _ Hl) as [Hin Hid].
  by rewrite (photo_url_of_consistent v _ _ Hok' Hin), updated_record_photo, Hid.
Qed.

Lemma update_then_get_witness :
  respond SqlBacked (PutInventoryId 1 (JStr "Notebook") JUndefined) (two_items SqlBacked) =
    Response 200 (BItem (Item 1 (JStr "Notebook") (JStr "16GB RAM") (Some "/cache/a1"))) ∧
  respond SqlBacked (GetInventoryId 1)
    (after SqlBacked (PutInventoryId 1 (JStr "Notebook") JUndefined) (two_items SqlBacked)) =
    Response 200 (BItemLink (Item 1 (JStr "Notebook") (JStr "16GB RAM") (Some "/cache/a1"))
                            (Some "/inventory/1/photo")).
Proof.
  apply (update_then_get SqlBacked (two_items SqlBacked) 1 (JStr "Notebook") JUndefined
           (Item 1 (JStr "Laptop") (JStr "16GB RAM") (Some "/cache/a1"))).
  - apply two_items_reachable.
  - reflexivity.
  - reflexivity.
Defined.

(** X20: registering an item, when the store takes the registration, and
    then deleting it leaves the records and the files on disk as they were
    before the registration; only the id counter has moved on, so the id is
    not given again. *)
Theorem register_then_delete (v : variant) (s : state_of v) (nm ds : jsval)
    (f : option upload) :
  reachable v s → fresh_upload (PostRegister nm ds f) (disk_of v s) → truthy nm = true →
  db_refuses v (PostRegister nm ds f) s = false →
  let s1 := after v (PostRegister nm ds f) s in
  let s2 := after v (DeleteInventoryId (counter v s)) s1 in
  respond v (DeleteInventoryId (counter v s)) s1 = item_deleted ∧
  records v s2 = records v s ∧
  files (disk_of v s2) = files (disk_of v s) ∧
  counter v s2 = counter v s + 1.
Proof.
  intros Hs Hfresh Hnm Href s1 s2. pose proof (reachable_consistent v s Hs) as Hok.
  pose proof (consistent_step v s _ Hok Hfresh) as Hok1. fold s1 in Hok1.
  destruct (view_register v s nm ds f Hnm Href) as (Hr1 & Hc1 & Hd1 & _).
  fold s1 in Hr1, Hc1, Hd1.
  set (it := stored_record v (counter v s) nm ds f) in *.
  assert (Hid : id it = counter v s) by apply stored_record_id.
  assert (Hfree : ∀ j, j ∈ records v s → id j ≠ counter v s).
  { intros j Hj. apply (ok_ids_below _ _ _ (ok_store _ _ Hok)) in Hj. lia. }
  assert (Hr1' : records v s1 = records v s ++ it :: []) by done.
  destruct (view_delete v s1 (counter v s) (records v s) it [] (ok_nodup v s1 Hok1)
              Hr1' Hid Hfree (register_id_ok v s nm ds f Hnm Href))
    as (d' & Hc & Hr2 & Hc2 & Hd2 & Ho).
  fold s2 in Hr2, Hc2, Hd2. split; [done|]. split; [by rewrite Hr2, app_nil_r|].
  split; [|by rewrite Hc2, Hc1].
  rewrite Hd2. unfold it in Hc. rewrite stored_record_photo, Hd1 in Hc.
  destruct (cleanup_photo_spec (photo_path_of f) (upload_single f (disk_of v s)))
    as (d2 & Hc' & Hspec).
  rewrite Hc in Hc'. injection Hc' as <-.
  destruct f as [u|]; [|simpl in Hspec; by rewrite Hspec].
  destruct Hfresh as [Hne Hnew]. simpl in Hnew.
  cbn [photo_path_of] in Hspec. unfold path_resolve in Hspec.
  rewrite (upload_exists u (disk_of v s) Hne) in Hspec. destruct Hspec as [-> _].
  simpl. set_solver.
Qed.

Lemma register_then_delete_witness :
  let s := two_items InMemory in
  let s1 := after InMemory (PostRegister (JStr "Desk") JNull (Some (Upload "/cache/h8"))) s in
  let s2 := after InMemory (DeleteInventoryId 3) s1 in
  respond InMemory (DeleteInventoryId 3) s1 = item_deleted ∧
  records InMemory s2 = records InMemory s ∧
  files (disk_of InMemory s2) = files (disk_of InMemory s) ∧
  counter InMemory s2 = 3 + 1.
Proof.
  apply (register_then_delete InMemory (two_items InMemory) (JStr "Desk") JNull
           (Some (Upload "/cache/h8"))).
  - apply two_items_reachable.
  - split; [done|]. simpl. set_solver.
  - reflexivity.
  - reflexivity.
Defined.
